(** * k8s-agent: the change-detection pipeline

    A shallow embedding of [pkg/handler/handler.go], [pkg/watcher/watcher.go]
    and [pkg/client/client.go], and the properties of the pipeline proved
    over it.

    Layout: the data model and the operations come first, in the order of the
    packages (strings helpers, documents, patches, gjson results, cache,
    client, handler, watcher), then a reference instance of the third-party
    primitives, then the lemmas and theorems. *)

From Stdlib Require Import ZArith String Ascii List Bool Lia.
From Stdlib Require Import DecimalString.
From stdpp Require Import base option list gmap strings pretty.

#[local] Set Warnings "-register-all".

Open Scope string_scope.
Open Scope list_scope.

(* ===================================================================== *)
(** ** Go's [strings] package, as far as the code calls it               *)
(* ===================================================================== *)

(** [strings.HasPrefix(s, prefix)]. *)
Fixpoint HasPrefix (s prefix : string) {struct prefix} : bool :=
  match prefix with
  | EmptyString => true
  | String p prefix' =>
      match s with
      | EmptyString => false
      | String c s' => Ascii.eqb c p && HasPrefix s' prefix'
      end
  end.

(** [s[n:]] for [n <= len(s)]. *)
Fixpoint string_drop (n : nat) (s : string) : string :=
  match n, s with
  | O, _ => s
  | S _, EmptyString => EmptyString
  | S n', String _ s' => string_drop n' s'
  end.

(** [strings.TrimPrefix(s, prefix)]. *)
Definition TrimPrefix (s prefix : string) : string :=
  if HasPrefix s prefix then string_drop (String.length prefix) s else s.

(** [strings.ReplaceAll(s, old, new)] for a non-empty [old]: the
    non-overlapping occurrences of [old] are replaced from left to right.
    [skip] counts the bytes of an occurrence still to be passed over. *)
Fixpoint replace_from (skip : nat) (s old new : string) : string :=
  match s with
  | EmptyString => EmptyString
  | String c s' =>
      match skip with
      | S k => replace_from k s' old new
      | O =>
          if HasPrefix s old
          then new +:+ replace_from (String.length old - 1) s' old new
          else String c (replace_from 0 s' old new)
      end
  end.

Definition ReplaceAll (s old new : string) : string := replace_from 0 s old new.

(** [strings.Count(s, sep)] for a one-byte separator. *)
Fixpoint Count (s : string) (sep : ascii) : nat :=
  match s with
  | EmptyString => 0
  | String c s' => (if Ascii.eqb c sep then 1 else 0) + Count s' sep
  end.

(** [s[:i]] and [s[i+1:]] for [i = strings.Index(s, sep)], when [sep]
    occurs in [s]. *)
Fixpoint cut_at (s : string) (sep : ascii) : option (string * string) :=
  match s with
  | EmptyString => None
  | String c s' =>
      if Ascii.eqb c sep then Some (EmptyString, s')
      else match cut_at s' sep with
           | Some (a, b) => Some (String c a, b)
           | None => None
           end
  end.

(** The pieces of [s] between the occurrences of [sep]
    ([strings.Split] with a one-byte separator). *)
Fixpoint Split (s : string) (sep : ascii) : list string :=
  match s with
  | EmptyString => [EmptyString]
  | String c s' =>
      if Ascii.eqb c sep then EmptyString :: Split s' sep
      else match Split s' sep with
           | seg :: rest => String c seg :: rest
           | [] => [String c EmptyString]
           end
  end.

(** The first segment of a slash-delimited pointer: the text between the
    leading ["/"] and the next ["/"]. The root pointer [""] and a text that
    does not start with ["/"] have none. *)
Definition first_segment (path : string) : option string :=
  match path with
  | String "/" rest => head (Split rest "/")
  | _ => None
  end.

(* ===================================================================== *)
(** ** Documents: the content of an unstructured object                   *)
(* ===================================================================== *)

(** The tree a cluster object decodes to ([map[string]interface{}] with
    nested maps, slices and scalars). [JNull] is Go's [nil] interface value.
    An object is an association list standing for a Go map: a key is looked
    up at its first binding. Numbers are the integers. *)
Inductive Json : Type :=
| JNull
| JBool (b : bool)
| JNum (n : Z)
| JStr (s : string)
| JArr (items : list Json)
| JObj (fields : list (string * Json)).

Fixpoint lookup_field (k : string) (fields : list (string * Json)) : option Json :=
  match fields with
  | [] => None
  | (k', v) :: rest => if String.eqb k k' then Some v else lookup_field k rest
  end.

Definition is_nil (v : Json) : bool :=
  match v with JNull => true | _ => false end.

(** [unstructured.Unstructured]: [Object] is the decoded content. *)
Record Unstructured : Type := { Object : list (string * Json) }.

Definition content (u : Unstructured) : Json := JObj (Object u).

(** [unstructured.NestedString]: the string at a field path, or [""] when
    the path is absent or does not hold a string. *)
Fixpoint NestedString (v : Json) (fields : list string) : string :=
  match fields with
  | [] => match v with JStr s => s | _ => "" end
  | f :: rest =>
      match v with
      | JObj fs =>
          match lookup_field f fs with
          | Some w => NestedString w rest
          | None => ""
          end
      | _ => ""
      end
  end.

Definition GetNamespace (u : Unstructured) : string :=
  NestedString (content u) ["metadata"; "namespace"].

Definition GetName (u : Unstructured) : string :=
  NestedString (content u) ["metadata"; "name"].

(** [obj.DeepCopyObject()]: values are immutable here, so the copy is the
    value itself. *)
Definition DeepCopyObject (u : Unstructured) : Unstructured := u.

(* ===================================================================== *)
(** ** jsondiff: operations and patches                                   *)
(* ===================================================================== *)

(** [jsondiff.Operation]. [op_OldValue] and [op_Value] are [interface{}]:
    [JNull] is [nil]. *)
Record Operation : Type := {
  op_Type : string;
  op_From : string;
  op_Path : string;
  op_OldValue : Json;
  op_Value : Json
}.

Definition Patch : Type := list Operation.

Definition OperationAdd : string := "add".
Definition OperationReplace : string := "replace".
Definition OperationRemove : string := "remove".

(* ===================================================================== *)
(** ** gjson: the result of a path query                                  *)
(* ===================================================================== *)

(** [gjson.Type]. A path that does not exist yields the zero [Result],
    whose type is [Null]. *)
Inductive gjson_Type : Type :=
| gjson_Null | gjson_False | gjson_Number | gjson_String | gjson_True | gjson_JSON.

(** [gjson.Result], reduced to its [Type] and to what [Value()] returns. *)
Record gjson_Result : Type := {
  Result_Type : gjson_Type;
  Result_Value : Json
}.

Definition is_gjson_Null (t : gjson_Type) : bool :=
  match t with gjson_Null => true | _ => false end.

(* ===================================================================== *)
(** ** The change set and the wire message                                *)
(* ===================================================================== *)

(** One entry of the change map: [{"old": ..., "new": ...}]. *)
Record Change : Type := { old : Json; new : Json }.

(** [map[string]interface{}] from path to entry. A [nil] map and an empty
    map differ in Go ([changes != nil]); functions that return the map
    return [option (gmap string Change)], [None] being [nil]. *)
Abbreviation ChangeSet := (gmap string Change).

(** [eventpb.EventMessage]. [Data] carries the serialized change set. *)
Record EventMessage (bytes : Type) : Type := {
  Namespace : string;
  ResourceKey : string;
  EventType : string;
  Data : bytes;
  ApiKey : string
}.

Arguments Namespace {bytes} _.
Arguments ResourceKey {bytes} _.
Arguments EventType {bytes} _.
Arguments Data {bytes} _.
Arguments ApiKey {bytes} _.

(* ===================================================================== *)
(** ** The primitives the pipeline consumes from its collaborators        *)
(* ===================================================================== *)

(** The third-party functions the handler and the client call. [None] is a
    returned error.
    - [json_Marshal] is [encoding/json.Marshal] on a cluster object;
    - [json_Marshal_changes] is [encoding/json.Marshal] on the change map;
    - [json_Indent] is the re-indentation [json.MarshalIndent] applies to
      the output of [json.Marshal];
    - [jsondiff_Compare] is [jsondiff.Compare];
    - [gjson_GetBytes] is [gjson.GetBytes];
    - [grpc_Dial target useTLS] tells whether [grpc.Dial] returns a
      connection for the target under the chosen transport credentials. *)
Class Primitives : Type := {
  bytes : Type;
  json_Marshal : Unstructured -> option bytes;
  json_Marshal_changes : ChangeSet -> option bytes;
  json_Indent : bytes -> bytes;
  jsondiff_Compare : Unstructured -> Unstructured -> option Patch;
  gjson_GetBytes : bytes -> string -> gjson_Result;
  grpc_Dial : string -> bool -> bool
}.

(** [json.MarshalIndent(v, prefix, indent)]: [json.Marshal] followed by
    the re-indentation of its output, which is valid JSON and so never fails
    to indent; it returns an error exactly when [json.Marshal] does. *)
Definition json_MarshalIndent `{Primitives} (v : ChangeSet) : option bytes :=
  match json_Marshal_changes v with
  | Some b => Some (json_Indent b)
  | None => None
  end.

(* ===================================================================== *)
(** ** The process environment and the configuration                      *)
(* ===================================================================== *)

(** The process environment; [os.Getenv] of an unset variable is [""]. *)
Abbreviation Env := (gmap string string).

Definition Getenv (env : Env) (name : string) : string :=
  match env !! name with
  | Some v => v
  | None => ""
  end.

(** The package-level variables of [handler], initialised once when the
    package is loaded. *)
Record Config : Type := {
  apiKey : string;
  destinationURL : string;
  debugEnabled : bool;
  externalSendEnabled : bool
}.

(** The initialisers of the package-level variables, on the environment
    the process starts with. *)
Definition init_config (env : Env) : Config := {|
  apiKey := Getenv env "API_KEY";
  destinationURL := Getenv env "DESTINATION_URL";
  debugEnabled := String.eqb (Getenv env "DEBUG_ENABLED") "true";
  externalSendEnabled := negb (String.eqb (Getenv env "EXTERNAL_SEND_ENABLED") "false")
|}.

(* ===================================================================== *)
(** ** pkg/cache: the object state cache                                  *)
(* ===================================================================== *)

(** [pkg/cache/cache.go]. [cache.ObjectCache] is a struct of a
    read-write mutex [mu] and the Go map [objects] from keys to objects.
    Every method takes the mutex for its whole body ([RLock] in [Get],
    [Lock] in [Set] and [Delete]), so a method is one atomic step on the map;
    in this sequential model the cache is the content of [objects] and a
    method is a function on it. The values are [runtime.Object]s; the handler,
    the only user of the cache, stores deep copies of unstructured objects. *)
Abbreviation ObjectCache := (gmap string Unstructured).

(** [NewObjectCache]: [objects: make(map[string]runtime.Object)]. *)
Definition NewObjectCache : ObjectCache := ∅.

(** [Get]: [obj, exists := c.objects[key]]; [None] is [exists = false]. *)
Definition cache_Get (c : ObjectCache) (key : string) : option Unstructured :=
  c !! key.

(** [Set]: [c.objects[key] = obj]. *)
Definition cache_Set (c : ObjectCache) (key : string) (obj : Unstructured) : ObjectCache :=
  <[key := obj]> c.

(** [Delete]: [delete(c.objects, key)]. *)
Definition cache_Delete (c : ObjectCache) (key : string) : ObjectCache :=
  delete key c.

(* ===================================================================== *)
(** ** pkg/client: the dispatcher                                         *)
(* ===================================================================== *)

(** What the process does at the boundary to the hub, in order: a dial of
    a target under a transport mode, and an [EmitEvent] RPC on a
    connection. *)
Inductive DispatcherCall (bytes : Type) : Type :=
| Dial (target : string) (useTLS : bool)
| EmitEvent (target : string) (useTLS : bool) (msg : EventMessage bytes).

Arguments Dial {bytes} _ _.
Arguments EmitEvent {bytes} _ _ _.

(** A connection, known by what it was dialled with. *)
Record ClientConn : Type := { conn_target : string; conn_useTLS : bool }.

Section client.
Context `{Primitives}.

(** [NewEventServiceClient]: reads [DESTINATION_URL] and [USE_TLS] from
    the environment of the moment of the call and dials. Returns the
    client, or [None] for the error, with the dial it made. *)
Definition NewEventServiceClient (env : Env)
  : option ClientConn * list (DispatcherCall bytes) :=
  let destinationURL := Getenv env "DESTINATION_URL" in
  let useTLS := String.eqb (Getenv env "USE_TLS") "true" in
  if grpc_Dial destinationURL useTLS
  then (Some {| conn_target := destinationURL; conn_useTLS := useTLS |},
        [Dial destinationURL useTLS])
  else (None, [Dial destinationURL useTLS]).

(** [SendEvent]: one [EmitEvent] RPC on the connection. Whether the hub
    acknowledges or the call fails only changes what is logged. *)
Definition SendEvent (client : ClientConn) (eventMessage : EventMessage bytes)
  : list (DispatcherCall bytes) :=
  [EmitEvent (conn_target client) (conn_useTLS client) eventMessage].

End client.

(* ===================================================================== *)
(** ** pkg/handler                                                        *)
(* ===================================================================== *)

(** The condition of the loop of [filterPatch]. *)
Definition kept (op : Operation) : bool :=
  negb (HasPrefix (op_Path op) "/metadata") && negb (HasPrefix (op_Path op) "/status").

(** [filterPatch]: the operations whose path starts neither with
    ["/metadata"] nor with ["/status"], appended one by one. *)
Definition filterPatch (patch : Patch) : Patch :=
  fold_left
    (fun filteredPatch op =>
       if kept op then filteredPatch ++ [op] else filteredPatch)
    patch [].

(** What a watch event carries as [event.Object]: an unstructured object,
    an unstructured list (it satisfies the [runtime.Unstructured] interface
    but has no object metadata), or a value of any other type, such as the
    status object of an error event. *)
Inductive RuntimeObject : Type :=
| Obj_Unstructured (u : Unstructured)
| Obj_UnstructuredList (items : list Unstructured)
| Obj_Other.

(** The value behind the [runtime.Unstructured] interface. *)
Inductive UnstructuredValue : Type :=
| Val_Object (u : Unstructured)
| Val_List (items : list Unstructured).

(** [event.Object.(k8sruntime.Unstructured)]. *)
Definition as_Unstructured (o : RuntimeObject) : option UnstructuredValue :=
  match o with
  | Obj_Unstructured u => Some (Val_Object u)
  | Obj_UnstructuredList items => Some (Val_List items)
  | Obj_Other => None
  end.

(** [meta.Accessor(obj)]: the object when it has object metadata. *)
Definition meta_Accessor (v : UnstructuredValue) : option Unstructured :=
  match v with
  | Val_Object u => Some u
  | Val_List _ => None
  end.

(** [watch.EventType] is a string type. *)
Definition Added : string := "ADDED".
Definition Modified : string := "MODIFIED".
Definition Deleted : string := "DELETED".
Definition Bookmark : string := "BOOKMARK".
Definition Error : string := "ERROR".

(** [watch.Event]. *)
Record Event : Type := { event_Type : string; event_Object : RuntimeObject }.

(** [schema.GroupVersion] and [schema.GroupVersionResource]. *)
Record GroupVersion : Type := { gv_Group : string; gv_Version : string }.

Record GroupVersionResource : Type := {
  Group : string;
  Version : string;
  Resource : string
}.

Definition WithResource (gv : GroupVersion) (resource : string) : GroupVersionResource :=
  {| Group := gv_Group gv; Version := gv_Version gv; Resource := resource |}.

(** The cache key of an object: [[namespace/]resource/name]. *)
Definition cache_key (obj : Unstructured) (gvr : GroupVersionResource) : string :=
  let resourcePath :=
    if negb (String.eqb (GetNamespace obj) "")
    then GetNamespace obj +:+ "/" +:+ Resource gvr
    else Resource gvr in
  resourcePath +:+ "/" +:+ GetName obj.

Section handler.
Context `{Primitives}.

(** The gjson path of a pointer: the leading slash trimmed, the other
    slashes turned into dots. *)
Definition gjsonPath (path : string) : string :=
  ReplaceAll (TrimPrefix path "/") "/" ".".

(** The body of the loop of [diffAndLog] over the filtered patch. *)
Definition record_change (oldObjJSON newObjJSON : bytes)
    (changes : ChangeSet) (op : Operation) : ChangeSet :=
  if String.eqb (op_Type op) "replace"
     || (String.eqb (op_Type op) "add" && negb (is_nil (op_OldValue op)))
  then
    let oldValue := gjson_GetBytes oldObjJSON (gjsonPath (op_Path op)) in
    let newValue := gjson_GetBytes newObjJSON (gjsonPath (op_Path op)) in
    if negb (is_gjson_Null (Result_Type oldValue))
    then <[op_Path op := {| old := Result_Value oldValue;
                            new := Result_Value newValue |}]> changes
    else changes
  else changes.

(** [diffAndLog]: [None] is the [nil] map. The debug log lines (and the
    clock and memory statistics they print) are not part of the model. *)
Definition diffAndLog (oldObj newObj : Unstructured) (key : string)
  : option ChangeSet :=
  match json_Marshal oldObj with
  | None => None
  | Some oldObjJSON =>
      match json_Marshal newObj with
      | None => None
      | Some newObjJSON =>
          match jsondiff_Compare oldObj newObj with
          | None => None
          | Some patch =>
              let filteredPatch := filterPatch patch in
              if Nat.eqb (length filteredPatch) 0 then None
              else
                let changes :=
                  fold_left (record_change oldObjJSON newObjJSON)
                            filteredPatch (∅ : ChangeSet) in
                match json_MarshalIndent changes with
                | None => None
                | Some _ => Some changes
                end
          end
      end
  end.

(** The [switch event.Type] of [HandleEvent]. [None] is a [return] from
    inside the switch; otherwise the cache after the switch together with
    [changes] and [eventData], which the code sets together: [Some
    (changes, eventData)] when [changes != nil]. An event type with no
    case falls through with nothing done. *)
Definition handle_switch (objCache : ObjectCache) (event_type : string)
    (obj : Unstructured) (key : string)
  : option (ObjectCache * option (ChangeSet * bytes)) :=
  if String.eqb event_type Added then
    Some (cache_Set objCache key (DeepCopyObject obj), None)
  else if String.eqb event_type Modified then
    match cache_Get objCache key with
    | Some oldObj =>
        match diffAndLog oldObj obj key with
        | Some changes =>
            match json_Marshal_changes changes with
            | None => None
            | Some eventData =>
                Some (cache_Set objCache key (DeepCopyObject obj),
                      Some (changes, eventData))
            end
        | None => Some (cache_Set objCache key (DeepCopyObject obj), None)
        end
    | None => None
    end
  else if String.eqb event_type Deleted then
    Some (cache_Delete objCache key, None)
  else Some (objCache, None).

(** The sending part of [HandleEvent]: what reaches the dispatcher. *)
Definition send_message (cfg : Config) (env : Env)
    (eventMessage : EventMessage bytes) : list (DispatcherCall bytes) :=
  if externalSendEnabled cfg then
    match NewEventServiceClient env with
    | (Some grpcClient, calls) => calls ++ SendEvent grpcClient eventMessage
    | (None, calls) => calls
    end
  else [].

(** What one call of [HandleEvent] leaves behind: the cache, the event
    message it assembled (if any) and the calls made to the dispatcher. *)
Record Outcome : Type := {
  out_cache : ObjectCache;
  out_message : option (EventMessage bytes);
  out_calls : list (DispatcherCall bytes)
}.

Definition unchanged (objCache : ObjectCache) : Outcome :=
  {| out_cache := objCache; out_message := None; out_calls := [] |}.

(** [HandleEvent]. [cfg] holds the package-level variables, [env] is the
    process environment at the time of the call, [objCache] the content
    of the package-level cache. *)
Definition HandleEvent (cfg : Config) (env : Env) (objCache : ObjectCache)
    (event : Event) (gvr : GroupVersionResource) : Outcome :=
  match as_Unstructured (event_Object event) with
  | None => unchanged objCache
  | Some obj =>
      match meta_Accessor obj with
      | None => unchanged objCache
      | Some metaObj =>
          let key := cache_key metaObj gvr in
          match handle_switch objCache (event_Type event) metaObj key with
          | None => unchanged objCache
          | Some (objCache', None) => unchanged objCache'
          | Some (objCache', Some (changes, eventData)) =>
              let eventMessage :=
                {| Namespace := GetNamespace metaObj;
                   ResourceKey := GetName metaObj;
                   EventType := event_Type event;
                   Data := eventData;
                   ApiKey := apiKey cfg |} in
              {| out_cache := objCache';
                 out_message := Some eventMessage;
                 out_calls := send_message cfg env eventMessage |}
          end
      end
  end.

(** A watch loop feeds its events to [HandleEvent] one after the other;
    [handle_events] does so for a sequence of notifications, each with
    the environment of its moment and the kind of its stream, and collects
    the calls made to the dispatcher. *)
Fixpoint handle_events (cfg : Config) (objCache : ObjectCache)
    (events : list (Env * Event * GroupVersionResource))
  : ObjectCache * list (DispatcherCall bytes) :=
  match events with
  | [] => (objCache, [])
  | (env, event, gvr) :: rest =>
      let o := HandleEvent cfg env objCache event gvr in
      let '(objCache', calls) := handle_events cfg (out_cache o) rest in
      (objCache', out_calls o ++ calls)
  end.

End handler.

(* ===================================================================== *)
(** ** pkg/watcher                                                        *)
(* ===================================================================== *)

(** [metav1.APIResource] and [metav1.APIResourceList], with the fields the
    filter reads. *)
Record APIResource : Type := { Name : string }.

Record APIResourceList : Type := {
  GroupVersion_of : string;
  APIResources : list APIResource
}.

(** [schema.ParseGroupVersion]: the empty string and ["/"] give the empty
    group and version, a string with no slash is a version of the core
    group, one slash separates group and version, more slashes are an
    error, whose message is returned on the right. *)
Definition ParseGroupVersion (gv : string) : GroupVersion + string :=
  if Nat.eqb (String.length gv) 0 || String.eqb gv "/" then
    inl {| gv_Group := ""; gv_Version := "" |}
  else
    match Count gv "/" with
    | 0 => inl {| gv_Group := ""; gv_Version := gv |}
    | 1 =>
        match cut_at gv "/" with
        | Some (g, v) => inl {| gv_Group := g; gv_Version := v |}
        | None => inr ("unexpected GroupVersion string: " +:+ gv)
        end
    | _ => inr ("unexpected GroupVersion string: " +:+ gv)
    end.

(** The allow-list of [filterWatchableResources]. *)
Definition wantedResources : gset string :=
  {[ "pods"; "deployments"; "statefulsets"; "daemonsets"; "jobs"; "cronjobs";
     "services"; "ingresses"; "networkpolicies"; "configmaps"; "secrets";
     "persistentvolumeclaims"; "roles"; "rolebindings"; "clusterroles";
     "clusterrolebindings" ]}.

(** The inner loop: the wanted resources of one group, appended. *)
Definition append_wanted (gv : GroupVersion)
    (watchableResources : list GroupVersionResource) (apiResource : APIResource)
  : list GroupVersionResource :=
  if bool_decide (Name apiResource ∈ wantedResources)
  then watchableResources ++ [WithResource gv (Name apiResource)]
  else watchableResources.

(** [filterWatchableResources]: the watchable resources and the lines it
    writes to the log (without the timestamp the logger puts in front). *)
Definition filterWatchableResources (apiResourceList : list APIResourceList)
  : list GroupVersionResource * list string :=
  fold_left
    (fun '(watchableResources, logged) apiResourceGroup =>
       match ParseGroupVersion (GroupVersion_of apiResourceGroup) with
       | inr err =>
           (watchableResources, logged ++ ["Error parsing GroupVersion: " +:+ err])
       | inl gv =>
           (fold_left (append_wanted gv) (APIResources apiResourceGroup)
                      watchableResources,
            logged)
       end)
    apiResourceList ([], []).

(* ===================================================================== *)
(** ** A reference instance of the primitives                             *)
(* ===================================================================== *)

(** The general theorems below hold for every instance of [Primitives].
    The scenarios need the primitives on concrete documents; this instance
    follows the libraries on the documents of this model: [jsondiff.Compare]
    with its default options (no factorisation, rationalisation or LCS), and
    [gjson] paths made of member names and array indices (its wildcards,
    queries, modifiers and escapes are not modelled). Serialized bytes are
    represented by the document they encode. [grpc.Dial], called without a
    blocking option, does not connect: it returns an error for the empty
    target, which its resolver refuses, and a connection otherwise. *)

(** [reflect.DeepEqual] on decoded documents: maps are compared key by
    key, slices position by position. *)
Fixpoint deepEqual (a b : Json) {struct a} : bool :=
  match a, b with
  | JNull, JNull => true
  | JBool x, JBool y => Bool.eqb x y
  | JNum x, JNum y => Z.eqb x y
  | JStr x, JStr y => String.eqb x y
  | JArr xs, JArr ys =>
      (fix all2 (xs ys : list Json) {struct xs} : bool :=
         match xs, ys with
         | [], [] => true
         | x :: xs', y :: ys' => deepEqual x y && all2 xs' ys'
         | _, _ => false
         end) xs ys
  | JObj fs, JObj gs =>
      Nat.eqb (length fs) (length gs)
      && (fix all (fs : list (string * Json)) {struct fs} : bool :=
            match fs with
            | [] => true
            | (k, v) :: fs' =>
                match lookup_field k gs with
                | Some w => deepEqual v w
                | None => false
                end && all fs'
            end) fs
  | _, _ => false
  end.

(** Two values are comparable when they are of the same JSON kind. *)
Definition areComparable (a b : Json) : bool :=
  match a, b with
  | JNull, JNull | JBool _, JBool _ | JNum _, JNum _ | JStr _, JStr _
  | JArr _, JArr _ | JObj _, JObj _ => true
  | _, _ => false
  end.

(** RFC 6901 escaping of a member name in a pointer. *)
Fixpoint escapeKey (k : string) : string :=
  match k with
  | EmptyString => EmptyString
  | String "~" k' => "~0" +:+ escapeKey k'
  | String "/" k' => "~1" +:+ escapeKey k'
  | String c k' => String c (escapeKey k')
  end.

Definition appendKey (ptr k : string) : string := ptr +:+ "/" +:+ escapeKey k.
Definition appendIndex (ptr : string) (i : nat) : string := ptr +:+ "/" +:+ pretty i.

Definition op_add (ptr : string) (v : Json) : Operation :=
  {| op_Type := OperationAdd; op_From := ""; op_Path := ptr;
     op_OldValue := JNull; op_Value := v |}.
Definition op_replace (ptr : string) (src tgt : Json) : Operation :=
  {| op_Type := OperationReplace; op_From := ""; op_Path := ptr;
     op_OldValue := src; op_Value := tgt |}.
Definition op_remove (ptr : string) (v : Json) : Operation :=
  {| op_Type := OperationRemove; op_From := ""; op_Path := ptr;
     op_OldValue := v; op_Value := JNull |}.

(** Insertion of a keyed item into a list sorted by key (bytewise order,
    as [sort.Strings]). *)
Fixpoint insert_by_key {A : Type} (k : string) (x : A) (l : list (string * A))
  : list (string * A) :=
  match l with
  | [] => [(k, x)]
  | (k', y) :: l' =>
      if String.leb k k' then (k, x) :: l else (k', y) :: insert_by_key k x l'
  end.

Definition sort_by_key {A : Type} (l : list (string * A)) : list (string * A) :=
  fold_right (fun kx acc => insert_by_key (fst kx) (snd kx) acc) [] l.

(** The differ. Objects are compared member by member in the order of the
    sorted keys of both sides; arrays position by position, the surplus of
    the source removed at the index of the common length and the surplus of
    the target appended at ["-"]. Values of different kinds are replaced; at
    the root of the document the replacement is an [add] that records the
    previous document. *)
Fixpoint diff (ptr : string) (src tgt : Json) {struct src} : Patch :=
  if is_nil src && is_nil tgt then []
  else if negb (areComparable src tgt) then
    if String.eqb ptr "" then
      [{| op_Type := OperationAdd; op_From := ""; op_Path := ptr;
          op_OldValue := src; op_Value := tgt |}]
    else [op_replace ptr src tgt]
  else if deepEqual src tgt then []
  else
    match src, tgt with
    | JArr xs, JArr ys =>
        let size := Nat.min (length xs) (length ys) in
        map (op_remove (appendIndex ptr size)) (drop size xs)
        ++ (fix compare (i : nat) (xs ys : list Json) {struct xs} : Patch :=
              match xs, ys with
              | x :: xs', y :: ys' =>
                  diff (appendIndex ptr i) x y ++ compare (S i) xs' ys'
              | _, _ => []
              end) 0 xs ys
        ++ map (op_add (appendKey ptr "-")) (drop size ys)
    | JObj fs, JObj gs =>
        let of_src :=
          (fix members (fs : list (string * Json)) {struct fs}
             : list (string * Patch) :=
             match fs with
             | [] => []
             | (k, v) :: fs' =>
                 (k, match lookup_field k gs with
                     | Some w => diff (appendKey ptr k) v w
                     | None => [op_remove (appendKey ptr k) v]
                     end) :: members fs'
             end) fs in
        let of_tgt :=
          omap (fun '(k, w) =>
                  match lookup_field k fs with
                  | Some _ => None
                  | None => Some (k, [op_add (appendKey ptr k) w])
                  end) gs in
        concat (map snd (sort_by_key (of_src ++ of_tgt)))
    | _, _ => [op_replace ptr src tgt]
    end.

(** The query of the reference [gjson]: the path is cut at its dots and
    followed through members and indices. *)
Definition parse_index (s : string) : option nat :=
  match NilEmpty.uint_of_string s with
  | Some u => Some (Nat.of_uint u)
  | None => None
  end.

Fixpoint follow (segments : list string) (v : Json) : option Json :=
  match segments with
  | [] => Some v
  | seg :: rest =>
      match v with
      | JObj fs =>
          match lookup_field seg fs with
          | Some w => follow rest w
          | None => None
          end
      | JArr xs =>
          match parse_index seg with
          | Some i =>
              match xs !! i with
              | Some w => follow rest w
              | None => None
              end
          | None => None
          end
      | _ => None
      end
  end.

Definition result_of (v : option Json) : gjson_Result :=
  match v with
  | Some (JBool true) => {| Result_Type := gjson_True; Result_Value := JBool true |}
  | Some (JBool false) => {| Result_Type := gjson_False; Result_Value := JBool false |}
  | Some (JNum n) => {| Result_Type := gjson_Number; Result_Value := JNum n |}
  | Some (JStr s) => {| Result_Type := gjson_String; Result_Value := JStr s |}
  | Some (JArr xs) => {| Result_Type := gjson_JSON; Result_Value := JArr xs |}
  | Some (JObj fs) => {| Result_Type := gjson_JSON; Result_Value := JObj fs |}
  | Some JNull | None => {| Result_Type := gjson_Null; Result_Value := JNull |}
  end.

Definition gjson_Get (doc : Json) (path : string) : gjson_Result :=
  result_of (follow (Split path ".") doc).

(** The change map as the document [json.Marshal] writes: members sorted
    by key, each entry an object with its ["new"] and ["old"] members. *)
Definition changes_document (changes : ChangeSet) : Json :=
  JObj (sort_by_key
          (map (fun '(path, c) => (path, JObj [("new", new c); ("old", old c)]))
               (map_to_list changes))).

Definition reference_primitives : Primitives := {|
  bytes := Json;
  json_Marshal := fun u => Some (content u);
  json_Marshal_changes := fun changes => Some (changes_document changes);
  json_Indent := fun b => b;
  jsondiff_Compare := fun src tgt => Some (diff "" (content src) (content tgt));
  gjson_GetBytes := gjson_Get;
  grpc_Dial := fun target _ => negb (String.eqb target "")
|}.

(* ===================================================================== *)
(** ** The statement of the kind filter                                   *)
(* ===================================================================== *)

(** What the filter is to return for one discovered group, in the words of
    its description: the group's resources whose name is in the allow-list,
    under the parsed group and version; nothing for a group whose
    group/version string does not parse. *)
Definition allowed_of_group (g : APIResourceList) : list GroupVersionResource :=
  match ParseGroupVersion (GroupVersion_of g) with
  | inl gv =>
      map (fun r => WithResource gv (Name r))
          (List.filter (fun r => bool_decide (Name r ∈ wantedResources))
                       (APIResources g))
  | inr _ => []
  end.

(** The diagnostic for one discovered group: a line for a group whose
    group/version string does not parse. *)
Definition diagnostic_of_group (g : APIResourceList) : option string :=
  match ParseGroupVersion (GroupVersion_of g) with
  | inl _ => None
  | inr err => Some ("Error parsing GroupVersion: " +:+ err)
  end.

(* ===================================================================== *)
(** ** The objects of the scenarios                                       *)
(* ===================================================================== *)

(** A deployment [default/web] whose [spec] holds the given members. *)
Definition deployment (resourceVersion : string) (spec : list (string * Json))
  : Unstructured :=
  {| Object :=
       [("apiVersion", JStr "apps/v1");
        ("kind", JStr "Deployment");
        ("metadata", JObj [("name", JStr "web");
                           ("namespace", JStr "default");
                           ("resourceVersion", JStr resourceVersion)]);
        ("spec", JObj spec)] |}.

(** The pod of the repository's tests ([TestDiffAndLog]), as the document
    it serializes to, with the given label value and container image. *)
Definition test_pod (label image : string) : Unstructured :=
  {| Object :=
       [("metadata", JObj [("name", JStr "test-pod");
                           ("namespace", JStr "default");
                           ("creationTimestamp", JNull);
                           ("labels", JObj [("test-label", JStr label)])]);
        ("spec", JObj [("containers",
                        JArr [JObj [("name", JStr "test-container");
                                    ("image", JStr image);
                                    ("resources", JObj [])]])]);
        ("status", JObj [])] |}.

(** An environment with the hub address and the switches of the
    deployment manifest ([install.yaml]) and an API key. *)
Definition hub_env : Env :=
  <["API_KEY" := "secret"]>
    (<["DESTINATION_URL" := "host.minikube.internal:50051"]>
       (<["DEBUG_ENABLED" := "true"]>
          (<["EXTERNAL_SEND_ENABLED" := "true"]> (<["USE_TLS" := "false"]> ∅)))).

Definition deployments : GroupVersionResource :=
  {| Group := "apps"; Version := "v1"; Resource := "deployments" |}.

Definition notification (event_type : string) (obj : Unstructured) : Event :=
  {| event_Type := event_type; event_Object := Obj_Unstructured obj |}.

(** What a path resolves to in the two serialized documents: the entry
    [diffAndLog] records for it. *)
Definition resolved_change `{Primitives} (oldObjJSON newObjJSON : bytes)
    (path : string) : Change :=
  {| old := Result_Value (gjson_GetBytes oldObjJSON (gjsonPath path));
     new := Result_Value (gjson_GetBytes newObjJSON (gjsonPath path)) |}.

(** The operations that contribute an entry: a [replace], or an [add]
    with a recorded previous value, whose path resolves in the serialized
    prior document to a value that is not null. *)
Definition contributes `{Primitives} (oldObjJSON : bytes) (op : Operation) : Prop :=
  (op_Type op = "replace" \/ (op_Type op = "add" /\ op_OldValue op <> JNull))
  /\ Result_Type (gjson_GetBytes oldObjJSON (gjsonPath (op_Path op))) <> gjson_Null.

(** The target and the transport mode of a call to the dispatcher. *)
Definition call_target {bytes : Type} (c : DispatcherCall bytes) : string :=
  match c with Dial t _ | EmitEvent t _ _ => t end.

Definition call_useTLS {bytes : Type} (c : DispatcherCall bytes) : bool :=
  match c with Dial _ tls | EmitEvent _ tls _ => tls end.

Definition call_message {bytes : Type} (c : DispatcherCall bytes)
  : option (EventMessage bytes) :=
  match c with Dial _ _ => None | EmitEvent _ _ msg => Some msg end.

(* ===================================================================== *)
(** ** pkg/watcher: the watch loops and their start                       *)
(* ===================================================================== *)

(** How a function that may call [log.Fatalf] ends: the process exits with
    the message, or the function returns. *)
Inductive Run (A : Type) : Type :=
| Fatal (message : string)
| Finished (result : A).

Arguments Fatal {A} _.
Arguments Finished {A} _.

(** The notifications of one watch, each with the environment of its
    moment, tagged with the kind of the loop that receives them. *)
Definition of_kind (gvr : GroupVersionResource) (stream : list (Env * Event))
  : list (Env * Event * GroupVersionResource) :=
  map (fun ee => (ee.1, ee.2, gvr)) stream.

(** [watchResource]: [watch] is what opening the watch gives, the
    notifications delivered until the channel closes or the error. An error
    is fatal; otherwise the loop logs that it watches the resource and hands
    every notification to [HandleEvent]. It returns the cache, the calls to
    the dispatcher and the lines logged. *)
Definition watchResource `{Primitives} (cfg : Config) (objCache : ObjectCache)
    (watch : list (Env * Event) + string) (gvr : GroupVersionResource)
  : Run (ObjectCache * list (DispatcherCall bytes) * list string) :=
  match watch with
  | inr err => Fatal ("Failed to watch " +:+ Resource gvr +:+ ": " +:+ err)
  | inl stream =>
      let '(objCache', calls) := handle_events cfg objCache (of_kind gvr stream) in
      Finished (objCache', calls, ["Watching " +:+ Resource gvr])
  end.

(** [StartWatching], up to the start of the loops: [discovered] and [err]
    are what [ServerPreferredResources] returns. Any error is fatal;
    otherwise one loop is started per filtered resource, in order. It returns
    the kinds of the loops started and the lines logged. *)
Definition StartWatching (discovered : list APIResourceList) (err : option string)
  : Run (list GroupVersionResource * list string) :=
  match err with
  | Some e =>
      Fatal ("Failed to discover server-supported API resources: " +:+ e)
  | None => Finished (filterWatchableResources discovered)
  end.

(* ===================================================================== *)
(** ** Pointers and gjson paths, for the statements                       *)
(* ===================================================================== *)

(** The slash-delimited pointer of a list of segments, [/s1/s2/.../sn];
    the root pointer for no segment. *)
Fixpoint pointer (segments : list string) : string :=
  match segments with
  | [] => ""
  | seg :: rest => "/" +:+ seg +:+ pointer rest
  end.

(** The segments joined by dots, [s1.s2.....sn]. *)
Fixpoint dotted (segments : list string) : string :=
  match segments with
  | [] => ""
  | [seg] => seg
  | seg :: rest => seg +:+ "." +:+ dotted rest
  end.

(** The number of notifications of a given type in a stream. *)
Definition count_type (event_type : string)
    (events : list (Env * Event * GroupVersionResource)) : nat :=
  length (List.filter (fun e => String.eqb (event_Type e.1.2) event_type) events).

(** The number of [EmitEvent] RPCs among the calls to the dispatcher. *)
Definition count_rpcs {bytes : Type} (calls : list (DispatcherCall bytes)) : nat :=
  length (List.filter (fun c => match c with EmitEvent _ _ _ => true | Dial _ _ => false end)
                      calls).

(** Primitives whose differ always returns an error, the others being those
    of the reference instance. *)
Definition failing_differ : Primitives := {|
  bytes := Json;
  json_Marshal := fun u => Some (content u);
  json_Marshal_changes := fun changes => Some (changes_document changes);
  json_Indent := fun b => b;
  jsondiff_Compare := fun _ _ => None;
  gjson_GetBytes := gjson_Get;
  grpc_Dial := fun target _ => negb (String.eqb target "")
|}.

(** The parts a cache key is read back into: the text before the first
    slash, the text between the first and the second slash, and the rest; a
    key with one slash only has an empty first part. *)
Definition key_parts (key : string) : string * string * string :=
  match cut_at key "/" with
  | Some (a, rest) =>
      match cut_at rest "/" with
      | Some (b, c) => (a, b, c)
      | None => ("", a, rest)
      end
  | None => ("", "", key)
  end.

(* ===================================================================== *)
(** * Properties                                                          *)
(* ===================================================================== *)

(** ** Strings *)

Lemma HasPrefix_spec (s prefix : string) :
  HasPrefix s prefix = true <-> exists rest, s = prefix +:+ rest.
Proof.
  revert s. induction prefix as [|p prefix IH]; intros s; simpl.
  - split; [intros _; by exists s | done].
  - destruct s as [|c s]; simpl.
    + split; [done | intros [rest Hrest]; discriminate].
    + rewrite andb_true_iff, Ascii.eqb_eq, IH. split.
      * intros [-> [rest ->]]. by exists rest.
      * intros [rest Hrest]. injection Hrest as -> ->. eauto.
Qed.

Lemma HasPrefix_false (s prefix : string) :
  HasPrefix s prefix = false <-> ~ exists rest, s = prefix +:+ rest.
Proof.
  rewrite <- HasPrefix_spec. by destruct (HasPrefix s prefix).
Qed.

(** The first piece of a split text, followed by the separator and the
    rest, when there is a separator; the whole text otherwise. *)
Lemma Split_head_prefix (s : string) (sep : ascii) (seg : string) :
  head (Split s sep) = Some seg ->
  s = seg \/ exists rest, s = seg +:+ String sep rest.
Proof.
  revert seg. induction s as [|c s IH]; intros seg; simpl.
  - intros [= <-]. by left.
  - destruct (Ascii.eqb_spec c sep) as [->|Hne]; simpl.
    + intros [= <-]. right. by exists s.
    + destruct (Split s sep) as [|seg' rest'] eqn:Hsplit; simpl.
      * intros [= <-]. destruct s; [by left | ].
        simpl in Hsplit. destruct (Ascii.eqb a sep); [done|].
        by destruct (Split s sep).
      * intros [= <-]. destruct (IH seg' eq_refl) as [->|[rest ->]].
        -- by left.
        -- right. by exists rest.
Qed.

Lemma append_empty_r (s : string) : s +:+ "" = s.
Proof.
  induction s as [|a s IH]; [done|].
  change (String a s +:+ "") with (String a (s +:+ "")). by rewrite IH.
Qed.

(** A pointer whose first segment is [seg] starts with ["/" ++ seg]. *)
Lemma first_segment_HasPrefix (path seg : string) :
  first_segment path = Some seg -> HasPrefix path ("/" +:+ seg) = true.
Proof.
  unfold first_segment. destruct path as [|c rest]; [done|].
  destruct (Ascii.eqb_spec c "/") as [->|Hne].
  - intros Hhead. apply HasPrefix_spec.
    destruct (Split_head_prefix _ _ _ Hhead) as [->|[rest' ->]].
    + exists "". simpl. by rewrite append_empty_r.
    + exists (String "/" rest'). done.
  - intros Hhead. exfalso.
    destruct c as [[] [] [] [] [] [] [] []]; try discriminate Hhead.
    by apply Hne.
Qed.

(** ** filterPatch *)

Lemma filterPatch_loop (patch filteredPatch : Patch) :
  fold_left
    (fun filteredPatch op =>
       if kept op then filteredPatch ++ [op] else filteredPatch)
    patch filteredPatch
  = filteredPatch ++ List.filter kept patch.
Proof.
  revert filteredPatch. induction patch as [|op patch IH]; intros acc; simpl.
  - by rewrite app_nil_r.
  - rewrite IH. destruct (kept op); [|done].
    by rewrite <- app_assoc.
Qed.

Lemma filterPatch_filter (patch : Patch) :
  filterPatch patch = List.filter kept patch.
Proof. unfold filterPatch. by rewrite filterPatch_loop. Qed.

Lemma filter_sublist {A : Type} (f : A -> bool) (l : list A) :
  sublist (List.filter f l) l.
Proof.
  induction l as [|x l IH]; simpl; [constructor|].
  destruct (f x); by constructor.
Qed.

Lemma elem_of_filterPatch (patch : Patch) (op : Operation) :
  op ∈ filterPatch patch <-> op ∈ patch /\ kept op = true.
Proof.
  rewrite filterPatch_filter, !list_elem_of_In, filter_In. done.
Qed.

(** The repository's [TestFilterPatch]. *)
Example TestFilterPatch :
  filterPatch
    [ {| op_Type := "add"; op_From := ""; op_Path := "/metadata/name";
         op_OldValue := JNull; op_Value := JStr "test-pod" |};
      {| op_Type := "add"; op_From := ""; op_Path := "/metadata/labels/test-label";
         op_OldValue := JNull; op_Value := JStr "test-value" |};
      {| op_Type := "add"; op_From := ""; op_Path := "/status/phase";
         op_OldValue := JNull; op_Value := JStr "Running" |};
      {| op_Type := "remove"; op_From := ""; op_Path := "/spec/containers/0";
         op_OldValue := JNull; op_Value := JNull |} ]
  = [ {| op_Type := "remove"; op_From := ""; op_Path := "/spec/containers/0";
         op_OldValue := JNull; op_Value := JNull |} ].
Proof. reflexivity. Qed.

(** C2 (amended): [filterPatch] keeps, in order, exactly the operations
    whose path starts neither with the text ["/metadata"] nor with the text
    ["/status"]; every operation whose first path segment is [metadata] or
    [status] is therefore dropped. *)
Theorem C2_filterPatch_drops_by_path_prefix (patch : Patch) :
  filterPatch patch = List.filter kept patch
  /\ sublist (filterPatch patch) patch
  /\ (forall op,
        kept op = true <->
        ~ (exists rest, op_Path op = "/metadata" +:+ rest)
        /\ ~ (exists rest, op_Path op = "/status" +:+ rest))
  /\ (forall op,
        first_segment (op_Path op) = Some "metadata"
        \/ first_segment (op_Path op) = Some "status" ->
        op ∉ filterPatch patch).
Proof.
  split; [apply filterPatch_filter|].
  split; [rewrite filterPatch_filter; apply filter_sublist|].
  split.
  - intros op. unfold kept.
    rewrite andb_true_iff, !negb_true_iff, !HasPrefix_false. done.
  - intros op Hseg Hin. apply elem_of_filterPatch in Hin as [_ Hkept].
    unfold kept in Hkept.
    apply andb_true_iff in Hkept as [Hm Hs].
    apply negb_true_iff in Hm, Hs.
    destruct Hseg as [Hseg|Hseg]; apply first_segment_HasPrefix in Hseg.
    + change ("/" +:+ "metadata") with "/metadata" in Hseg. congruence.
    + change ("/" +:+ "status") with "/status" in Hseg. congruence.
Qed.

(** C2, as stated, fails: an operation whose first path segment is
    [statusPolicy], a name other than [metadata] and [status], is dropped. *)
Lemma C2_counterexample_other_first_segment_dropped :
  let op := {| op_Type := "replace"; op_From := "";
               op_Path := "/statusPolicy/mode";
               op_OldValue := JStr "a"; op_Value := JStr "b" |} in
  first_segment (op_Path op) = Some "statusPolicy"
  /\ first_segment (op_Path op) <> Some "metadata"
  /\ first_segment (op_Path op) <> Some "status"
  /\ filterPatch [op] = [].
Proof. repeat split; done. Qed.

(** ** filterWatchableResources *)

Lemma append_wanted_loop (gv : GroupVersion) (resources : list APIResource)
    (watchableResources : list GroupVersionResource) :
  fold_left (append_wanted gv) resources watchableResources
  = watchableResources
    ++ map (fun r => WithResource gv (Name r))
           (List.filter (fun r => bool_decide (Name r ∈ wantedResources)) resources).
Proof.
  revert watchableResources.
  induction resources as [|r resources IH]; intros acc;
    cbn [fold_left List.filter map].
  - by rewrite app_nil_r.
  - rewrite IH. unfold append_wanted.
    destruct (bool_decide (Name r ∈ wantedResources));
      cbn [map]; [by rewrite <- app_assoc | done].
Qed.

Lemma filterWatchableResources_loop (l : list APIResourceList)
    (watchableResources : list GroupVersionResource) (logged : list string) :
  fold_left
    (fun '(watchableResources, logged) apiResourceGroup =>
       match ParseGroupVersion (GroupVersion_of apiResourceGroup) with
       | inr err =>
           (watchableResources, logged ++ ["Error parsing GroupVersion: " +:+ err])
       | inl gv =>
           (fold_left (append_wanted gv) (APIResources apiResourceGroup)
                      watchableResources,
            logged)
       end)
    l (watchableResources, logged)
  = (watchableResources ++ concat (map allowed_of_group l),
     logged ++ omap diagnostic_of_group l).
Proof.
  revert watchableResources logged.
  induction l as [|g l IH]; intros acc logged;
    cbn [fold_left map concat omap list_omap].
  - by rewrite !app_nil_r.
  - unfold allowed_of_group at 1, diagnostic_of_group at 1.
    destruct (ParseGroupVersion (GroupVersion_of g)) as [gv|err]; rewrite IH.
    + by rewrite append_wanted_loop, <- app_assoc.
    + cbn [app]. by rewrite <- app_assoc.
Qed.

Lemma filterWatchableResources_eq (l : list APIResourceList) :
  filterWatchableResources l
  = (concat (map allowed_of_group l), omap diagnostic_of_group l).
Proof. unfold filterWatchableResources. by rewrite filterWatchableResources_loop. Qed.

Lemma elem_of_allowed_of_group (g : APIResourceList) (gvr : GroupVersionResource) :
  gvr ∈ allowed_of_group g <->
  exists r gv, r ∈ APIResources g
    /\ ParseGroupVersion (GroupVersion_of g) = inl gv
    /\ Name r ∈ wantedResources
    /\ gvr = WithResource gv (Name r).
Proof.
  unfold allowed_of_group.
  destruct (ParseGroupVersion (GroupVersion_of g)) as [gv|err].
  - rewrite list_elem_of_In, in_map_iff. split.
    + intros (r & <- & Hr). apply filter_In in Hr as [Hr Hw].
      apply bool_decide_eq_true in Hw. exists r, gv.
      apply list_elem_of_In in Hr. repeat split; assumption.
    + intros (r & gv' & Hr & [= <-] & Hw & ->). exists r. split; [done|].
      apply filter_In. split; [by apply list_elem_of_In|].
      by apply bool_decide_eq_true.
  - split; [by intros ?%elem_of_nil | by intros (? & ? & ? & [=] & ?)].
Qed.

(** The group/version strings that do not parse: those with two slashes
    or more. *)
Lemma ParseGroupVersion_error (gv : string) :
  (exists err, ParseGroupVersion gv = inr err) <-> 2 <= Count gv "/".
Proof.
  unfold ParseGroupVersion.
  destruct (Nat.eqb_spec (String.length gv) 0) as [Hlen|Hlen]; simpl.
  { destruct gv; [|done]. simpl. split; [by intros [? [=]] | lia]. }
  destruct (String.eqb_spec gv "/") as [->|Hne]; simpl.
  { split; [by intros [? [=]] | lia]. }
  destruct (Count gv "/") as [|[|n]] eqn:Hcount.
  - split; [by intros [? [=]] | lia].
  - destruct (cut_at gv "/") as [[g v]|] eqn:Hcut.
    + split; [by intros [? [=]] | lia].
    + exfalso. clear Hlen Hne. induction gv as [|c gv IH]; [done|].
      simpl in Hcount, Hcut. destruct (Ascii.eqb c "/"); [done|].
      destruct (cut_at gv "/") as [[??]|]; [done|]. by apply IH.
  - split; [lia | eauto].
Qed.

(** C9: the kind filter returns, group by group and in order, the
    resources whose name is in the allow-list under the parsed group and
    version; a group whose group/version string does not parse contributes
    a line to the log and nothing else, and the groups after it are
    filtered as usual. *)
Theorem C9_filterWatchableResources_allow_list (l : list APIResourceList) :
  (filterWatchableResources l).1 = concat (map allowed_of_group l)
  /\ (filterWatchableResources l).2 = omap diagnostic_of_group l
  /\ (forall gvr,
        gvr ∈ (filterWatchableResources l).1 <->
        exists g r gv,
          g ∈ l /\ r ∈ APIResources g
          /\ ParseGroupVersion (GroupVersion_of g) = inl gv
          /\ Name r ∈ wantedResources
          /\ gvr = WithResource gv (Name r))
  /\ (forall before g after err,
        l = before ++ g :: after ->
        ParseGroupVersion (GroupVersion_of g) = inr err ->
        (filterWatchableResources l).1
        = (filterWatchableResources before).1 ++ (filterWatchableResources after).1
        /\ (filterWatchableResources l).2
          = (filterWatchableResources before).2
            ++ ["Error parsing GroupVersion: " +:+ err]
            ++ (filterWatchableResources after).2).
Proof.
  rewrite filterWatchableResources_eq. simpl.
  split; [done|]. split; [done|]. split.
  - intros gvr. rewrite list_elem_of_In, in_concat. split.
    + intros (gs & Hgs & Hin). apply in_map_iff in Hgs as (g & <- & Hg).
      apply list_elem_of_In, elem_of_allowed_of_group in Hin
        as (r & gv & Hr & Hparse & Hw & ->).
      exists g, r, gv. apply list_elem_of_In in Hg.
      repeat split; assumption.
    + intros (g & r & gv & Hg & Hr & Hparse & Hw & ->).
      exists (allowed_of_group g). split.
      * apply in_map. by apply list_elem_of_In.
      * apply list_elem_of_In, elem_of_allowed_of_group. eauto 10.
  - intros before g after err -> Hparse.
    rewrite !filterWatchableResources_eq. simpl.
    rewrite map_app, concat_app, omap_app. simpl.
    unfold allowed_of_group at 2, diagnostic_of_group at 2.
    by rewrite Hparse.
Qed.

(** ** HandleEvent *)

Section handler_properties.
Context `{Primitives}.

Implicit Types (cfg : Config) (env : Env) (objCache : ObjectCache).
Implicit Types (obj oldObj newObj : Unstructured) (gvr : GroupVersionResource).

(** A change map that [diffAndLog] returns has been serialized once
    already, so [json.Marshal] succeeds on it. *)
Lemma diffAndLog_marshals oldObj newObj key (changes : ChangeSet) :
  diffAndLog oldObj newObj key = Some changes ->
  exists eventData, json_Marshal_changes changes = Some eventData.
Proof.
  unfold diffAndLog, json_MarshalIndent. intros Hdiff.
  destruct (json_Marshal oldObj); [|done].
  destruct (json_Marshal newObj); [|done].
  destruct (jsondiff_Compare oldObj newObj); [|done].
  destruct (length (filterPatch _) =? 0)%nat; [done|].
  destruct (json_Marshal_changes _) as [serialized|] eqn:Hser; [|done].
  injection Hdiff as <-. eauto.
Qed.

(** The switch on a [Modified] event whose key is cached always reaches
    the update of the cache. *)
Lemma handle_switch_Modified_cached objCache obj oldObj key :
  cache_Get objCache key = Some oldObj ->
  exists changes,
    handle_switch objCache Modified obj key
    = Some (cache_Set objCache key (DeepCopyObject obj), changes).
Proof.
  intros Hget. unfold handle_switch. simpl. rewrite Hget.
  destruct (diffAndLog oldObj obj key) as [changes|] eqn:Hdiff; [|eauto].
  destruct (diffAndLog_marshals _ _ _ _ Hdiff) as [eventData ->]. eauto.
Qed.

(** An event message is only ever assembled for a [Modified] event, and
    carries its type; without a message nothing reaches the dispatcher. *)
Lemma HandleEvent_message cfg env objCache event gvr msg :
  out_message (HandleEvent cfg env objCache event gvr) = Some msg ->
  event_Type event = Modified /\ EventType msg = Modified.
Proof.
  unfold HandleEvent.
  destruct (as_Unstructured _) as [v|]; [|done].
  destruct (meta_Accessor v) as [obj|]; [|done].
  unfold handle_switch.
  destruct (String.eqb_spec (event_Type event) Added); [done|].
  destruct (String.eqb_spec (event_Type event) Modified) as [->|].
  - destruct (cache_Get _ _); [|done].
    destruct (diffAndLog _ _ _); [|done].
    destruct (json_Marshal_changes _); [|done].
    simpl. by intros [= <-].
  - by destruct (String.eqb_spec (event_Type event) Deleted).
Qed.

Lemma HandleEvent_calls cfg env objCache event gvr :
  out_calls (HandleEvent cfg env objCache event gvr)
  = match out_message (HandleEvent cfg env objCache event gvr) with
    | Some msg => send_message cfg env msg
    | None => []
    end.
Proof.
  unfold HandleEvent.
  destruct (as_Unstructured _) as [v|]; [|done].
  destruct (meta_Accessor v) as [obj|]; [|done].
  by destruct (handle_switch _ _ _ _) as [[objCache' [[changes eventData]|]]|].
Qed.

Lemma send_message_calls cfg env (msg : EventMessage bytes) call :
  call ∈ send_message cfg env msg ->
  externalSendEnabled cfg = true
  /\ call_target call = Getenv env "DESTINATION_URL"
  /\ call_useTLS call = String.eqb (Getenv env "USE_TLS") "true"
  /\ (call_message call = None \/ call_message call = Some msg).
Proof.
  unfold send_message, NewEventServiceClient, SendEvent.
  destruct (externalSendEnabled cfg); [|by intros ?%elem_of_nil].
  destruct (grpc_Dial _ _); simpl.
  - rewrite elem_of_cons, list_elem_of_singleton. intros [->| ->]; simpl; auto.
  - rewrite list_elem_of_singleton. intros ->; simpl; auto.
Qed.

(** C4: a [Modified] notification whose key has no snapshot in the cache
    produces no event message, makes no call to the dispatcher and leaves
    the cache as it was, still without the key. *)
Theorem C4_modified_without_snapshot cfg env objCache obj gvr :
  cache_Get objCache (cache_key obj gvr) = None ->
  let out := HandleEvent cfg env objCache (notification Modified obj) gvr in
  out_message out = None
  /\ out_calls out = []
  /\ out_cache out = objCache
  /\ cache_Get (out_cache out) (cache_key obj gvr) = None.
Proof.
  intros Hget. unfold HandleEvent, notification. simpl.
  unfold handle_switch. simpl. by rewrite Hget.
Qed.

(** C5: a [Modified] notification whose key has a snapshot in the cache
    leaves the deep copy of the incoming object under that key, and the
    other keys as they were, whatever the primitives return: a change set,
    no change, or an error of serialization or of the differ. *)
Theorem C5_modified_updates_snapshot cfg env objCache obj oldObj gvr :
  cache_Get objCache (cache_key obj gvr) = Some oldObj ->
  let out := HandleEvent cfg env objCache (notification Modified obj) gvr in
  out_cache out = cache_Set objCache (cache_key obj gvr) (DeepCopyObject obj)
  /\ cache_Get (out_cache out) (cache_key obj gvr) = Some (DeepCopyObject obj)
  /\ (forall key, key <> cache_key obj gvr ->
        cache_Get (out_cache out) key = cache_Get objCache key).
Proof.
  intros Hget out.
  assert (out_cache out
          = cache_Set objCache (cache_key obj gvr) (DeepCopyObject obj)) as Hout.
  { subst out. unfold HandleEvent, notification. simpl.
    destruct (handle_switch_Modified_cached _ obj _ _ Hget) as [changes ->].
    by destruct changes as [[??]|]. }
  rewrite Hout. unfold cache_Set, cache_Get.
  split; [done|]. split; [apply lookup_insert_eq|].
  intros key Hne. by apply lookup_insert_ne.
Qed.

(** C10: a notification whose type is none of [Added], [Modified] and
    [Deleted] leaves the cache as it was, assembles no event message and
    makes no call to the dispatcher. *)
Theorem C10_other_event_types_are_ignored cfg env objCache event gvr :
  event_Type event <> Added ->
  event_Type event <> Modified ->
  event_Type event <> Deleted ->
  HandleEvent cfg env objCache event gvr = unchanged objCache.
Proof.
  intros Ha Hm Hd. unfold HandleEvent.
  destruct (as_Unstructured _) as [v|]; [|done].
  destruct (meta_Accessor v) as [obj|]; [|done].
  unfold handle_switch.
  destruct (String.eqb_spec (event_Type event) Added); [done|].
  destruct (String.eqb_spec (event_Type event) Modified); [done|].
  by destruct (String.eqb_spec (event_Type event) Deleted).
Qed.

(** *** The loop of diffAndLog *)

Lemma record_change_cases (oldObjJSON newObjJSON : bytes)
    (changes : ChangeSet) (op : Operation) :
  (contributes oldObjJSON op
   /\ record_change oldObjJSON newObjJSON changes op
      = <[op_Path op := resolved_change oldObjJSON newObjJSON (op_Path op)]> changes)
  \/ (~ contributes oldObjJSON op
      /\ record_change oldObjJSON newObjJSON changes op = changes).
Proof.
  unfold record_change, contributes.
  destruct (String.eqb_spec (op_Type op) "replace") as [Hr|Hr]; simpl.
  - destruct (Result_Type _) eqn:Hty; simpl;
      [right; split; [intros [_ ?]; done | done] | left; split; [split; [by left | done] | done] ..].
  - destruct (String.eqb_spec (op_Type op) "add") as [Ha|Ha]; simpl;
      [|right; split; [intros [[?|[? _]] _]; done | done]].
    destruct (op_OldValue op) eqn:Hold; simpl;
      [right; split; [intros [[?|[_ ?]] _]; done | done] | ..];
      (destruct (Result_Type _) eqn:Hty; simpl;
       [right; split; [intros [_ ?]; done | done]
       | left; split; [split; [right; split; done | done] | done] ..]).
Qed.

Lemma record_change_loop (oldObjJSON newObjJSON : bytes)
    (ops : Patch) (changes : ChangeSet) :
  (forall path c, changes !! path = Some c ->
                  c = resolved_change oldObjJSON newObjJSON path) ->
  forall path c,
    fold_left (record_change oldObjJSON newObjJSON) ops changes !! path = Some c
    <-> changes !! path = Some c
        \/ exists op, op ∈ ops /\ contributes oldObjJSON op
                      /\ op_Path op = path
                      /\ c = resolved_change oldObjJSON newObjJSON path.
Proof.
  revert changes. induction ops as [|op ops IH]; intros changes Hcons path c.
  - simpl. split; [by left|]. intros [?|(op & Hin & _)]; [done|].
    by apply elem_of_nil in Hin.
  - cbn [fold_left].
    destruct (record_change_cases oldObjJSON newObjJSON changes op)
      as [[Hc ->]|[Hc ->]].
    + rewrite IH.
      * split.
        -- intros [Hl|(op' & Hin & Hrest)].
           ++ destruct (decide (op_Path op = path)) as [<-|Hne].
              ** rewrite lookup_insert_eq in Hl. injection Hl as <-.
                 right. exists op. split; [left|]; done.
              ** rewrite lookup_insert_ne in Hl by done. by left.
           ++ right. exists op'. split; [by right | done].
        -- intros [Hl|(op' & Hin & Hc' & Hp & ->)].
           ++ left. destruct (decide (op_Path op = path)) as [<-|Hne].
              ** rewrite lookup_insert_eq. by rewrite (Hcons _ _ Hl).
              ** by rewrite lookup_insert_ne.
           ++ apply elem_of_cons in Hin as [->|Hin].
              ** left. rewrite Hp. by rewrite lookup_insert_eq.
              ** right. exists op'. done.
      * intros path' c'. destruct (decide (op_Path op = path')) as [<-|Hne].
        -- rewrite lookup_insert_eq. by intros [= <-].
        -- rewrite lookup_insert_ne by done. apply Hcons.
    + rewrite IH by done. split.
      * intros [Hl|(op' & Hin & Hrest)]; [by left|].
        right. exists op'. split; [by right | done].
      * intros [Hl|(op' & Hin & Hc' & Hrest)]; [by left|].
        apply elem_of_cons in Hin as [->|Hin]; [done|].
        right. exists op'. done.
Qed.

(** C7: every entry of the change set that [diffAndLog] returns comes
    from an operation of the filtered patch that is a [replace], or an
    [add] with a recorded previous value, and whose path resolves in the
    prior document to a value that is not null; the entry holds what the
    path resolves to in the two documents. Every such operation has its
    entry. *)
Theorem C7_entries_have_non_null_old_value oldObj newObj key
    (changes : ChangeSet) :
  diffAndLog oldObj newObj key = Some changes ->
  exists oldObjJSON newObjJSON patch,
    json_Marshal oldObj = Some oldObjJSON
    /\ json_Marshal newObj = Some newObjJSON
    /\ jsondiff_Compare oldObj newObj = Some patch
    /\ forall path c,
         changes !! path = Some c <->
         exists op,
           op ∈ filterPatch patch
           /\ (op_Type op = "replace"
               \/ (op_Type op = "add" /\ op_OldValue op <> JNull))
           /\ Result_Type (gjson_GetBytes oldObjJSON (gjsonPath (op_Path op)))
              <> gjson_Null
           /\ op_Path op = path
           /\ c = {| old := Result_Value (gjson_GetBytes oldObjJSON (gjsonPath path));
                     new := Result_Value (gjson_GetBytes newObjJSON (gjsonPath path)) |}.
Proof.
  unfold diffAndLog. intros Hdiff.
  destruct (json_Marshal oldObj) as [oldObjJSON|]; [|done].
  destruct (json_Marshal newObj) as [newObjJSON|]; [|done].
  destruct (jsondiff_Compare oldObj newObj) as [patch|]; [|done].
  destruct (length (filterPatch patch) =? 0)%nat; [done|].
  destruct (json_MarshalIndent _); [|done].
  injection Hdiff as <-.
  exists oldObjJSON, newObjJSON, patch. repeat split; try done.
  - intros Hl. apply record_change_loop in Hl.
    + destruct Hl as [Hl|(op & Hin & [Hty Hnn] & Hp & ->)].
      * by rewrite lookup_empty in Hl.
      * exists op. done.
    + intros path' c'. by rewrite lookup_empty.
  - intros (op & Hin & Hty & Hnn & Hp & ->).
    apply record_change_loop.
    + intros path' c'. by rewrite lookup_empty.
    + right. exists op. done.
Qed.

(** *** Added and Deleted notifications, and streams of notifications *)

Lemma handle_events_calls cfg (events : list (Env * Event * GroupVersionResource))
    objCache call :
  call ∈ (handle_events cfg objCache events).2 ->
  exists env event gvr objCache',
    (env, event, gvr) ∈ events
    /\ call ∈ out_calls (HandleEvent cfg env objCache' event gvr).
Proof.
  revert objCache. induction events as [|[[env event] gvr] events IH];
    intros objCache; cbn [handle_events].
  - by intros ?%elem_of_nil.
  - destruct (handle_events cfg _ events) as [objCache' calls] eqn:Hrest.
    cbn [snd]. rewrite elem_of_app. intros [Hhere|Hlater].
    + exists env, event, gvr, objCache. split; [left | done].
    + destruct (IH (out_cache (HandleEvent cfg env objCache event gvr)) )
        as (env' & event' & gvr' & objCache'' & Hin & Hcall).
      { by rewrite Hrest. }
      exists env', event', gvr', objCache''. split; [by right | done].
Qed.

(** C6: an [Added] notification assembles no event message and makes no
    call to the dispatcher, it only stores the deep copy of the object
    under its key; a [Deleted] notification likewise only removes the
    entry of the key. In a stream of notifications, every message that
    reaches the dispatcher is of type [Modified]. *)
Theorem C6_added_and_deleted_never_dispatch cfg env objCache object gvr :
  let added :=
    HandleEvent cfg env objCache
                {| event_Type := Added; event_Object := object |} gvr in
  let deleted :=
    HandleEvent cfg env objCache
                {| event_Type := Deleted; event_Object := object |} gvr in
  (out_message added = None /\ out_calls added = [])
  /\ (out_message deleted = None /\ out_calls deleted = [])
  /\ out_cache added
     = match object with
       | Obj_Unstructured obj =>
           cache_Set objCache (cache_key obj gvr) (DeepCopyObject obj)
       | _ => objCache
       end
  /\ out_cache deleted
     = match object with
       | Obj_Unstructured obj => cache_Delete objCache (cache_key obj gvr)
       | _ => objCache
       end
  /\ (forall (events : list (Env * Event * GroupVersionResource)) call msg,
        call ∈ (handle_events cfg objCache events).2 ->
        call_message call = Some msg ->
        EventType msg = Modified).
Proof.
  repeat split; try by destruct object.
  intros events call msg Hcall Hmsg.
  apply handle_events_calls in Hcall
    as (env' & event & gvr' & objCache' & _ & Hcall).
  rewrite HandleEvent_calls in Hcall.
  destruct (out_message _) as [msg'|] eqn:Hout; [|by apply elem_of_nil in Hcall].
  apply HandleEvent_message in Hout as [_ Hty].
  apply send_message_calls in Hcall as (_ & _ & _ & [Hm|Hm]);
    rewrite Hm in Hmsg; [done | by injection Hmsg as <-].
Qed.

(** *** Configuration *)

Lemma Outcome_eq (o1 o2 : Outcome) :
  out_cache o1 = out_cache o2 ->
  out_message o1 = out_message o2 ->
  out_calls o1 = out_calls o2 ->
  o1 = o2.
Proof. destruct o1, o2; simpl. by intros -> -> ->. Qed.

Lemma send_message_env cfg env env' (msg : EventMessage bytes) :
  Getenv env' "DESTINATION_URL" = Getenv env "DESTINATION_URL" ->
  Getenv env' "USE_TLS" = Getenv env "USE_TLS" ->
  send_message cfg env' msg = send_message cfg env msg.
Proof.
  intros Hurl Htls. unfold send_message, NewEventServiceClient.
  by rewrite Hurl, Htls.
Qed.

Lemma HandleEvent_message_ApiKey cfg env objCache event gvr msg :
  out_message (HandleEvent cfg env objCache event gvr) = Some msg ->
  ApiKey msg = apiKey cfg.
Proof.
  unfold HandleEvent.
  destruct (as_Unstructured _) as [v|]; [|done].
  destruct (meta_Accessor v) as [obj|]; [|done].
  destruct (handle_switch _ _ _ _) as [[objCache' [[changes eventData]|]]|];
    try done.
  simpl. by intros [= <-].
Qed.

(** The environment at the time of the call only reaches the calls made
    to the dispatcher. *)
Lemma HandleEvent_env cfg env env' objCache event gvr :
  out_cache (HandleEvent cfg env' objCache event gvr)
  = out_cache (HandleEvent cfg env objCache event gvr)
  /\ out_message (HandleEvent cfg env' objCache event gvr)
     = out_message (HandleEvent cfg env objCache event gvr).
Proof.
  unfold HandleEvent.
  destruct (as_Unstructured _) as [v|]; [|done].
  destruct (meta_Accessor v) as [obj|]; [|done].
  by destruct (handle_switch _ _ _ _) as [[objCache' [[changes eventData]|]]|].
Qed.

(** C3 (amended): the API key and the send toggle are the values the
    environment had at startup, whatever the environment is later. The
    hub address and the TLS mode of a dispatch are read from the
    environment at the time of the dispatch; two environments that agree
    on [DESTINATION_URL] and [USE_TLS] give the same outcome. *)
Theorem C3_startup_and_dispatch_time_configuration
    (startup : Env) env objCache event gvr :
  let cfg := init_config startup in
  let out := HandleEvent cfg env objCache event gvr in
  (forall msg, out_message out = Some msg ->
               ApiKey msg = Getenv startup "API_KEY")
  /\ (Getenv startup "EXTERNAL_SEND_ENABLED" = "false" -> out_calls out = [])
  /\ (forall call, call ∈ out_calls out ->
        call_target call = Getenv env "DESTINATION_URL"
        /\ call_useTLS call = String.eqb (Getenv env "USE_TLS") "true"
        /\ forall msg, call_message call = Some msg ->
                       ApiKey msg = Getenv startup "API_KEY")
  /\ (forall env',
        out_cache (HandleEvent cfg env' objCache event gvr) = out_cache out
        /\ out_message (HandleEvent cfg env' objCache event gvr) = out_message out)
  /\ (forall env',
        Getenv env' "DESTINATION_URL" = Getenv env "DESTINATION_URL" ->
        Getenv env' "USE_TLS" = Getenv env "USE_TLS" ->
        HandleEvent cfg env' objCache event gvr = out).
Proof.
  intros cfg out. split; [|split; [|split; [|split]]].
  - intros msg Hmsg. by apply HandleEvent_message_ApiKey in Hmsg.
  - intros Hoff. subst out. rewrite HandleEvent_calls.
    destruct (out_message _); [|done].
    unfold send_message, cfg, init_config. simpl. by rewrite Hoff.
  - intros call Hcall. subst out. rewrite HandleEvent_calls in Hcall.
    destruct (out_message _) as [msg|] eqn:Hout; [|by apply elem_of_nil in Hcall].
    apply HandleEvent_message_ApiKey in Hout.
    apply send_message_calls in Hcall as (_ & Ht & Htls & Hm).
    split; [done|]. split; [done|].
    intros msg' Hmsg'.
    destruct Hm as [Hm|Hm]; rewrite Hm in Hmsg'; [done | by injection Hmsg' as <-].
  - intros env'. apply HandleEvent_env.
  - intros env' Hurl Htls.
    destruct (HandleEvent_env cfg env env' objCache event gvr) as [Hc Hm].
    pose proof (HandleEvent_calls cfg env' objCache event gvr) as Hcalls'.
    pose proof (HandleEvent_calls cfg env objCache event gvr) as Hcalls.
    rewrite Hm in Hcalls'.
    assert (out_calls (HandleEvent cfg env' objCache event gvr)
            = out_calls (HandleEvent cfg env objCache event gvr)) as Hk.
    { rewrite Hcalls', Hcalls.
      destruct (out_message (HandleEvent cfg env objCache event gvr)) as [msg|];
        [by apply send_message_env | reflexivity]. }
    by apply Outcome_eq.
Qed.

(** *** The two paths of HandleEvent that assemble nothing or a message *)

Lemma HandleEvent_Added cfg env objCache obj gvr :
  HandleEvent cfg env objCache (notification Added obj) gvr
  = unchanged (cache_Set objCache (cache_key obj gvr) (DeepCopyObject obj)).
Proof. reflexivity. Qed.


End handler_properties.

(** ** The scenarios, on the reference primitives *)


(** The repository's [TestDiffAndLog]: the label and the image of the pod
    change; the change set holds the image only. *)
Example TestDiffAndLog :
  @diffAndLog reference_primitives
              (test_pod "test-value" "test-image") (test_pod "new-value" "new-image")
              "default/test-pod"
  = Some {[ "/spec/containers/0/image" :=
              {| old := JStr "test-image"; new := JStr "new-image" |} ]}.
Proof. vm_compute. reflexivity. Qed.

(** A group/version string with two slashes is reported and skipped; the
    groups around it are filtered. *)
Example filterWatchableResources_skips_unparsable :
  filterWatchableResources
    [ {| GroupVersion_of := "v1";
         APIResources := [ {| Name := "pods" |}; {| Name := "nodes" |} ] |};
      {| GroupVersion_of := "a/b/c";
         APIResources := [ {| Name := "secrets" |} ] |};
      {| GroupVersion_of := "apps/v1";
         APIResources := [ {| Name := "deployments" |} ] |} ]
  = ([ {| Group := ""; Version := "v1"; Resource := "pods" |};
       {| Group := "apps"; Version := "v1"; Resource := "deployments" |} ],
     [ "Error parsing GroupVersion: unexpected GroupVersion string: a/b/c" ]).
Proof. vm_compute. reflexivity. Qed.



(** C1, evaluated: the prior snapshot holds [spec.paused] with a null
    value and the incoming object holds [true] there; the hub address is the
    one of the deployment manifest. The filtered patch holds one [replace],
    its old value resolves to null and the entry is discarded, so [diffAndLog]
    returns the empty map, which is not [nil]: an event message with an empty
    change set is assembled and sent to the hub. *)
Theorem C1_empty_change_set_is_sent :
  let X := deployment "1" [("paused", JNull)] in
  let X' := deployment "1" [("paused", JBool true)] in
  let cfg := init_config hub_env in
  let cached : ObjectCache :=
    cache_Set NewObjectCache "default/deployments/web" X in
  let out :=
    @HandleEvent reference_primitives cfg hub_env cached
                 (notification Modified X') deployments in
  let msg : EventMessage (@bytes reference_primitives) :=
    {| Namespace := "default"; ResourceKey := "web"; EventType := "MODIFIED";
       Data := JObj []; ApiKey := "secret" |} in
  filterPatch (diff "" (content X) (content X'))
  = [op_replace "/spec/paused" JNull (JBool true)]
  /\ Result_Type (gjson_Get (content X) (gjsonPath "/spec/paused")) = gjson_Null
  /\ @diffAndLog reference_primitives X X' "default/deployments/web"
     = Some (∅ : ChangeSet)
  /\ out_message out = Some msg
  /\ out_calls out
     = [Dial "host.minikube.internal:50051" false;
        EmitEvent "host.minikube.internal:50051" false msg].
Proof. vm_compute. repeat (split; [reflexivity|]). reflexivity. Qed.

(** C3, as stated, fails: two runs start with the same environment and
    receive the same notifications; in the second the hub address and the
    TLS switch are changed in the environment after startup. The first run
    dials the startup address with TLS, the second dials the changed address
    without TLS. The API key is the startup value in both. *)
Lemma C3_counterexample_environment_changed_after_startup :
  let startup : Env :=
    <["API_KEY" := "secret"]>
      (<["DESTINATION_URL" := "hub.example:443"]> (<["USE_TLS" := "true"]> ∅)) in
  let later : Env :=
    <["DESTINATION_URL" := "elsewhere.example:80"]> (<["USE_TLS" := "false"]> startup) in
  let cfg := init_config startup in
  let X := deployment "1" [("replicas", JNum 1)] in
  let X' := deployment "1" [("replicas", JNum 3)] in
  let msg : EventMessage (@bytes reference_primitives) :=
    {| Namespace := "default"; ResourceKey := "web"; EventType := Modified;
       Data := JObj [("/spec/replicas", JObj [("new", JNum 3); ("old", JNum 1)])];
       ApiKey := "secret" |} in
  let first_run :=
    @handle_events reference_primitives cfg ∅
      [(startup, notification Added X, deployments);
       (startup, notification Modified X', deployments)] in
  let second_run :=
    @handle_events reference_primitives cfg ∅
      [(startup, notification Added X, deployments);
       (later, notification Modified X', deployments)] in
  first_run.2 = [Dial "hub.example:443" true; EmitEvent "hub.example:443" true msg]
  /\ second_run.2
     = [Dial "elsewhere.example:80" false; EmitEvent "elsewhere.example:80" false msg]
  /\ first_run.2 <> second_run.2.
Proof.
  vm_compute. split; [reflexivity|]. split; [reflexivity|]. discriminate.
Qed.

(** ** The theorems at concrete inputs *)

(** C4 at a concrete input: a [Modified] notification for a deployment, on an empty cache. *)
Lemma C4_witness :
  let X := deployment "1" [("replicas", JNum 1)] in
  let out :=
    @HandleEvent reference_primitives (init_config ∅) ∅ ∅
                 (notification Modified X) deployments in
  out_message out = None
  /\ out_calls out = []
  /\ out_cache out = ∅
  /\ cache_Get (out_cache out) (cache_key X deployments) = None.
Proof.
  apply (@C4_modified_without_snapshot reference_primitives).
  reflexivity.
Defined.

(** C5 at a concrete input: a [Modified] notification for a deployment whose snapshot is cached. *)
Lemma C5_witness :
  let X := deployment "1" [("replicas", JNum 1)] in
  let X' := deployment "2" [("replicas", JNum 3)] in
  let cached : ObjectCache := {[ "default/deployments/web" := X ]} in
  let out :=
    @HandleEvent reference_primitives (init_config ∅) ∅ cached
                 (notification Modified X') deployments in
  out_cache out = cache_Set cached (cache_key X' deployments) (DeepCopyObject X')
  /\ cache_Get (out_cache out) (cache_key X' deployments) = Some (DeepCopyObject X')
  /\ (forall key, key <> cache_key X' deployments ->
        cache_Get (out_cache out) key = cache_Get cached key).
Proof.
  apply (@C5_modified_updates_snapshot reference_primitives)
    with (oldObj := deployment "1" [("replicas", JNum 1)]).
  vm_compute. reflexivity.
Defined.

(** C7 at a concrete input: the two deployments of the replicas scenario. *)
Lemma C7_witness :
  let X := deployment "1" [("replicas", JNum 1)] in
  let X' := deployment "2" [("replicas", JNum 3)] in
  let changes : ChangeSet :=
    {[ "/spec/replicas" := {| old := JNum 1; new := JNum 3 |} ]} in
  exists oldObjJSON newObjJSON patch,
    @json_Marshal reference_primitives X = Some oldObjJSON
    /\ @json_Marshal reference_primitives X' = Some newObjJSON
    /\ @jsondiff_Compare reference_primitives X X' = Some patch
    /\ forall path c,
         changes !! path = Some c <->
         exists op,
           op ∈ filterPatch patch
           /\ (op_Type op = "replace"
               \/ (op_Type op = "add" /\ op_OldValue op <> JNull))
           /\ Result_Type (@gjson_GetBytes reference_primitives oldObjJSON
                                           (gjsonPath (op_Path op)))
              <> gjson_Null
           /\ op_Path op = path
           /\ c = {| old := Result_Value (@gjson_GetBytes reference_primitives
                                            oldObjJSON (gjsonPath path));
                     new := Result_Value (@gjson_GetBytes reference_primitives
                                            newObjJSON (gjsonPath path)) |}.
Proof.
  apply (@C7_entries_have_non_null_old_value reference_primitives)
    with (key := "default/deployments/web").
  vm_compute. reflexivity.
Defined.


(** C10 at a concrete input: a [Bookmark] notification for a cached deployment. *)
Lemma C10_witness :
  let X := deployment "1" [("replicas", JNum 1)] in
  let cached : ObjectCache := {[ "default/deployments/web" := X ]} in
  @HandleEvent reference_primitives (init_config ∅) ∅ cached
               (notification Bookmark X) deployments
  = @unchanged reference_primitives cached.
Proof.
  apply (@C10_other_event_types_are_ignored reference_primitives);
    discriminate.
Defined.

(** ** Further properties of HandleEvent *)

Section handler_outcomes.
Context `{Primitives}.

Implicit Types (cfg : Config) (env : Env) (objCache : ObjectCache).
Implicit Types (obj oldObj newObj : Unstructured) (gvr : GroupVersionResource).

(** The switch only writes the cache at the key it is given. *)
Lemma handle_switch_frame objCache event_type obj key objCache' changes :
  handle_switch objCache event_type obj key = Some (objCache', changes) ->
  forall k, k <> key -> cache_Get objCache' k = cache_Get objCache k.
Proof.
  unfold handle_switch, cache_Get, cache_Set, cache_Delete.
  intros Hswitch k Hne.
  destruct (event_type =? Added).
  { injection Hswitch as <- _. by apply lookup_insert_ne. }
  destruct (event_type =? Modified).
  { destruct (objCache !! key); [|done].
    destruct (diffAndLog _ _ _).
    - destruct (json_Marshal_changes _); [|done].
      injection Hswitch as <- _. by apply lookup_insert_ne.
    - injection Hswitch as <- _. by apply lookup_insert_ne. }
  destruct (event_type =? Deleted).
  { injection Hswitch as <- _. by apply lookup_delete_ne. }
  by injection Hswitch as <- _.
Qed.

(** The outcome for an event that carries no unstructured object. *)
Lemma HandleEvent_not_object cfg env objCache event gvr :
  (forall obj, event_Object event <> Obj_Unstructured obj) ->
  HandleEvent cfg env objCache event gvr = unchanged objCache.
Proof.
  intros Hno. unfold HandleEvent.
  destruct (event_Object event) as [obj| |]; [|done..].
  by destruct (Hno obj).
Qed.

(** The cache after an event, key by key, away from the key of the event. *)
Lemma HandleEvent_frame cfg env objCache event gvr obj k :
  event_Object event = Obj_Unstructured obj ->
  k <> cache_key obj gvr ->
  cache_Get (out_cache (HandleEvent cfg env objCache event gvr)) k
  = cache_Get objCache k.
Proof.
  intros Hobj Hne. unfold HandleEvent. rewrite Hobj.
  cbn [as_Unstructured meta_Accessor].
  destruct (handle_switch _ _ _ _) as [[objCache' changes]|] eqn:Hswitch; [|done].
  pose proof (handle_switch_frame _ _ _ _ _ _ Hswitch k Hne) as Hframe.
  by destruct changes as [[??]|].
Qed.

(** X1: [HandleEvent] writes the cache at the key of the object of the
    event only: every other key keeps its snapshot or its absence. An event
    whose object is not an unstructured object with metadata changes
    nothing, whatever its type. *)
Theorem X1_HandleEvent_touches_only_its_key cfg env objCache event gvr :
  (forall obj k,
      event_Object event = Obj_Unstructured obj ->
      k <> cache_key obj gvr ->
      cache_Get (out_cache (HandleEvent cfg env objCache event gvr)) k
      = cache_Get objCache k)
  /\ ((forall obj, event_Object event <> Obj_Unstructured obj) ->
      HandleEvent cfg env objCache event gvr = unchanged objCache).
Proof.
  split.
  - intros obj k Hobj Hne. by apply HandleEvent_frame with (obj := obj).
  - apply HandleEvent_not_object.
Qed.

(** The calls of [send_message], spelled out. *)
Lemma send_message_cases cfg env (msg : EventMessage bytes) :
  send_message cfg env msg
  = let target := Getenv env "DESTINATION_URL" in
    let useTLS := String.eqb (Getenv env "USE_TLS") "true" in
    if externalSendEnabled cfg then
      if grpc_Dial target useTLS
      then [Dial target useTLS; EmitEvent target useTLS msg]
      else [Dial target useTLS]
    else [].
Proof.
  unfold send_message, NewEventServiceClient, SendEvent.
  destruct (externalSendEnabled cfg); [|done].
  by destruct (grpc_Dial _ _).
Qed.

(** X3: what one notification makes of the dispatcher. Nothing when no
    message was assembled or sending is disabled; otherwise one dial of the
    address and mode read from the environment, followed, when the dial
    returned a connection, by one [EmitEvent] of the assembled message on
    that connection, and by nothing when the dial failed. *)
Theorem X3_dial_then_at_most_one_rpc cfg env objCache event gvr :
  let out := HandleEvent cfg env objCache event gvr in
  let target := Getenv env "DESTINATION_URL" in
  let useTLS := String.eqb (Getenv env "USE_TLS") "true" in
  out_calls out
  = match out_message out with
    | None => []
    | Some msg =>
        if externalSendEnabled cfg then
          if grpc_Dial target useTLS
          then [Dial target useTLS; EmitEvent target useTLS msg]
          else [Dial target useTLS]
        else []
    end.
Proof.
  intros out target useTLS. subst out.
  rewrite HandleEvent_calls.
  destruct (out_message _) as [msg|]; [|done].
  apply send_message_cases.
Qed.

(** The message of a [Modified] notification whose key is cached. *)
Lemma HandleEvent_Modified_message cfg env objCache obj oldObj gvr :
  cache_Get objCache (cache_key obj gvr) = Some oldObj ->
  out_message (HandleEvent cfg env objCache (notification Modified obj) gvr)
  = match diffAndLog oldObj obj (cache_key obj gvr) with
    | Some changes =>
        match json_Marshal_changes changes with
        | Some eventData =>
            Some {| Namespace := GetNamespace obj;
                    ResourceKey := GetName obj;
                    EventType := Modified;
                    Data := eventData;
                    ApiKey := apiKey cfg |}
        | None => None
        end
    | None => None
    end.
Proof.
  intros Hget. unfold HandleEvent, notification.
  cbn [event_Object event_Type as_Unstructured meta_Accessor].
  unfold handle_switch.
  change (Modified =? Added) with false. change (Modified =? Modified) with true.
  cbn iota. rewrite Hget.
  destruct (diffAndLog _ _ _) as [changes|]; [|done].
  by destruct (json_Marshal_changes changes).
Qed.

(** X4: an event message is assembled exactly for a [Modified]
    notification carrying an unstructured object whose key holds a snapshot
    and for which [diffAndLog] returns a map; the message carries the
    namespace and the name of the object, the type of the event, the
    serialized map and the API key of the configuration. *)
Theorem X4_message_assembled_iff cfg env objCache event gvr
    (msg : EventMessage bytes) :
  out_message (HandleEvent cfg env objCache event gvr) = Some msg
  <-> exists obj oldObj changes eventData,
        event_Type event = Modified
        /\ event_Object event = Obj_Unstructured obj
        /\ cache_Get objCache (cache_key obj gvr) = Some oldObj
        /\ diffAndLog oldObj obj (cache_key obj gvr) = Some changes
        /\ json_Marshal_changes changes = Some eventData
        /\ msg = {| Namespace := GetNamespace obj;
                    ResourceKey := GetName obj;
                    EventType := Modified;
                    Data := eventData;
                    ApiKey := apiKey cfg |}.
Proof.
  split.
  - intros Hmsg.
    destruct (HandleEvent_message _ _ _ _ _ _ Hmsg) as [Hty _].
    destruct event as [ty object]. simpl in Hty. subst ty.
    destruct object as [obj| |]; [|done..].
    change {| event_Type := Modified; event_Object := Obj_Unstructured obj |}
      with (notification Modified obj) in Hmsg.
    destruct (cache_Get objCache (cache_key obj gvr)) as [oldObj|] eqn:Hget.
    + rewrite (HandleEvent_Modified_message _ _ _ _ _ _ Hget) in Hmsg.
      destruct (diffAndLog _ _ _) as [changes|] eqn:Hdiff; [|done].
      destruct (json_Marshal_changes changes) as [eventData|] eqn:Hdata; [|done].
      injection Hmsg as <-. exists obj, oldObj, changes, eventData. done.
    + exfalso. revert Hmsg. unfold HandleEvent, notification.
      cbn [event_Object event_Type as_Unstructured meta_Accessor].
      unfold handle_switch.
      change (Modified =? Added) with false. change (Modified =? Modified) with true.
      cbn iota. by rewrite Hget.
  - intros (obj & oldObj & changes & eventData & Hty & Hobj & Hget & Hdiff & Hdata & ->).
    destruct event as [ty object]. simpl in Hty, Hobj. subst ty object.
    change {| event_Type := Modified; event_Object := Obj_Unstructured obj |}
      with (notification Modified obj).
    rewrite (HandleEvent_Modified_message _ _ _ _ _ _ Hget).
    by rewrite Hdiff, Hdata.
Qed.

End handler_outcomes.

Section handler_diff_outcomes.
Context `{Primitives}.

Implicit Types (cfg : Config) (env : Env) (objCache : ObjectCache).
Implicit Types (obj oldObj newObj : Unstructured) (gvr : GroupVersionResource).

(** The cache and the message do not depend on the environment, on the
    send toggle or on the destination of the configuration. *)
Lemma HandleEvent_cache_message cfg cfg' env env' objCache event gvr :
  out_cache (HandleEvent cfg env objCache event gvr)
  = out_cache (HandleEvent cfg' env' objCache event gvr)
  /\ (apiKey cfg = apiKey cfg' ->
      out_message (HandleEvent cfg env objCache event gvr)
      = out_message (HandleEvent cfg' env' objCache event gvr)).
Proof.
  unfold HandleEvent.
  destruct (as_Unstructured _) as [v|]; [|done].
  destruct (meta_Accessor v) as [obj|]; [|done].
  destruct (handle_switch _ _ _ _) as [[objCache' [[changes eventData]|]]|];
    try done.
  simpl. split; [done|]. by intros ->.
Qed.

Lemma HandleEvent_disabled cfg env objCache event gvr :
  externalSendEnabled cfg = false ->
  out_calls (HandleEvent cfg env objCache event gvr) = [].
Proof.
  intros Hoff. rewrite HandleEvent_calls.
  destruct (out_message _); [|done].
  unfold send_message. by rewrite Hoff.
Qed.

(** X2: the send toggle only decides whether the dispatcher is called.
    With sending disabled no call is made, while the cache is updated and the
    event message is assembled exactly as with sending enabled; neither
    depends on the environment at the time of the call. *)
Theorem X2_send_toggle_only_gates_the_dispatch
    cfg cfg' env env' objCache event gvr :
  out_cache (HandleEvent cfg env objCache event gvr)
  = out_cache (HandleEvent cfg' env' objCache event gvr)
  /\ (apiKey cfg = apiKey cfg' ->
      out_message (HandleEvent cfg env objCache event gvr)
      = out_message (HandleEvent cfg' env' objCache event gvr))
  /\ (externalSendEnabled cfg = false ->
      out_calls (HandleEvent cfg env objCache event gvr) = []).
Proof.
  destruct (HandleEvent_cache_message cfg cfg' env env' objCache event gvr)
    as [Hcache Hmsg].
  split; [done|]. split; [done|]. apply HandleEvent_disabled.
Qed.

(** A [Modified] notification for a cached key on which [diffAndLog]
    returns [nil]: only the snapshot is replaced. *)
Lemma HandleEvent_Modified_nil cfg env objCache obj oldObj gvr :
  cache_Get objCache (cache_key obj gvr) = Some oldObj ->
  diffAndLog oldObj obj (cache_key obj gvr) = None ->
  HandleEvent cfg env objCache (notification Modified obj) gvr
  = unchanged (cache_Set objCache (cache_key obj gvr) (DeepCopyObject obj)).
Proof.
  intros Hget Hdiff. unfold HandleEvent, notification.
  cbn [event_Object event_Type as_Unstructured meta_Accessor].
  unfold handle_switch.
  change (Modified =? Added) with false. change (Modified =? Modified) with true.
  cbn iota. by rewrite Hget, Hdiff.
Qed.

Lemma filterPatch_nil (patch : Patch) :
  filterPatch patch = [] <-> forall op, op ∈ patch -> kept op = false.
Proof.
  rewrite filterPatch_filter. induction patch as [|op patch IH]; simpl.
  - split; [by intros _ ? ?%elem_of_nil | done].
  - destruct (kept op) eqn:Hkept.
    + split; [done|]. intros Hall.
      specialize (Hall op (list_elem_of_here _ _)). congruence.
    + rewrite IH. split.
      * intros Hall op' [->|Hin]%elem_of_cons; auto.
      * intros Hall op' Hin. apply Hall. by right.
Qed.

(** X5: when every operation of the patch has a path that starts with
    ["/metadata"] or ["/status"] (the empty patch included), a [Modified]
    notification for a cached key assembles no message and makes no call; the
    snapshot is replaced by the incoming object. *)
Theorem X5_bookkeeping_only_changes_are_silent
    cfg env objCache obj oldObj gvr (patch : Patch) :
  cache_Get objCache (cache_key obj gvr) = Some oldObj ->
  jsondiff_Compare oldObj obj = Some patch ->
  (forall op, op ∈ patch ->
              HasPrefix (op_Path op) "/metadata" = true
              \/ HasPrefix (op_Path op) "/status" = true) ->
  HandleEvent cfg env objCache (notification Modified obj) gvr
  = unchanged (cache_Set objCache (cache_key obj gvr) (DeepCopyObject obj)).
Proof.
  intros Hget Hcompare Hall. apply HandleEvent_Modified_nil with (oldObj := oldObj);
    [done|].
  unfold diffAndLog. rewrite Hcompare.
  destruct (json_Marshal oldObj); [|done].
  destruct (json_Marshal obj); [|done].
  assert (filterPatch patch = []) as ->; [|done].
  apply filterPatch_nil. intros op Hin. unfold kept.
  destruct (Hall op Hin) as [-> | ->]; [done|]. apply andb_false_r.
Qed.

(** X6: when the serialization of either object or the differ returns an
    error, a [Modified] notification for a cached key assembles no message
    and makes no call, and the snapshot is still replaced by the incoming
    object. *)
Theorem X6_primitive_errors_drop_the_event_only
    cfg env objCache obj oldObj gvr :
  cache_Get objCache (cache_key obj gvr) = Some oldObj ->
  json_Marshal oldObj = None \/ json_Marshal obj = None
  \/ jsondiff_Compare oldObj obj = None ->
  HandleEvent cfg env objCache (notification Modified obj) gvr
  = unchanged (cache_Set objCache (cache_key obj gvr) (DeepCopyObject obj)).
Proof.
  intros Hget Herr. apply HandleEvent_Modified_nil with (oldObj := oldObj);
    [done|].
  unfold diffAndLog.
  destruct Herr as [-> | [Hnew | Hcompare]]; [done| |].
  - rewrite Hnew. by destruct (json_Marshal oldObj).
  - rewrite Hcompare. by destruct (json_Marshal oldObj), (json_Marshal obj).
Qed.

Lemma record_change_size (oldObjJSON newObjJSON : bytes) (ops : Patch)
    (changes : ChangeSet) :
  size (fold_left (record_change oldObjJSON newObjJSON) ops changes)
  <= size changes + length ops.
Proof.
  revert changes. induction ops as [|op ops IH]; intros changes;
    cbn [fold_left length]; [lia|].
  etrans; [apply IH|].
  destruct (record_change_cases oldObjJSON newObjJSON changes op)
    as [[_ ->]|[_ ->]]; [|lia].
  rewrite map_size_insert. destruct (changes !! op_Path op); unfold id; lia.
Qed.

(** X7: a change set that [diffAndLog] returns has no entry whose path
    starts with ["/metadata"] or ["/status"]; every entry is at the path of
    an operation of the patch, and there are at most as many entries as
    operations left by the filter, of which there is at least one. *)
Theorem X7_change_set_within_filtered_patch oldObj newObj key
    (changes : ChangeSet) :
  diffAndLog oldObj newObj key = Some changes ->
  exists patch,
    jsondiff_Compare oldObj newObj = Some patch
    /\ filterPatch patch <> []
    /\ size changes <= length (filterPatch patch)
    /\ forall path, is_Some (changes !! path) ->
         HasPrefix path "/metadata" = false
         /\ HasPrefix path "/status" = false
         /\ exists op, op ∈ patch /\ op_Path op = path.
Proof.
  unfold diffAndLog. intros Hdiff.
  destruct (json_Marshal oldObj) as [oldObjJSON|]; [|done].
  destruct (json_Marshal newObj) as [newObjJSON|]; [|done].
  destruct (jsondiff_Compare oldObj newObj) as [patch|]; [|done].
  destruct (Nat.eqb_spec (length (filterPatch patch)) 0) as [|Hlen]; [done|].
  destruct (json_MarshalIndent _); [|done].
  injection Hdiff as <-. exists patch. split; [done|]. split.
  { intros Hnil. by rewrite Hnil in Hlen. }
  split.
  { etrans; [apply record_change_size|]. rewrite map_size_empty. lia. }
  intros path [c Hc]. apply record_change_loop in Hc.
  - destruct Hc as [Hc|(op & Hin & _ & <- & _)]; [by rewrite lookup_empty in Hc|].
    apply elem_of_filterPatch in Hin as [Hin Hkept]. unfold kept in Hkept.
    apply andb_true_iff in Hkept as [Hm Hs].
    apply negb_true_iff in Hm, Hs. eauto.
  - intros path' c'. by rewrite lookup_empty.
Qed.

(** X16: the snapshot a [Modified] notification is compared with is the
    object of the last [Added] or [Modified] notification for its key: after
    either, the message of the next [Modified] notification is the one of the
    change set between that object and the incoming one. *)
Theorem X16_diff_is_against_the_last_notification
    cfg env env' objCache obj1 obj2 gvr (baseline : string) :
  cache_key obj2 gvr = cache_key obj1 gvr ->
  baseline = Added
  \/ (baseline = Modified /\ is_Some (cache_Get objCache (cache_key obj1 gvr))) ->
  let after :=
    out_cache (HandleEvent cfg env objCache (notification baseline obj1) gvr) in
  cache_Get after (cache_key obj1 gvr) = Some obj1
  /\ out_message (HandleEvent cfg env' after (notification Modified obj2) gvr)
     = match diffAndLog obj1 obj2 (cache_key obj2 gvr) with
       | Some changes =>
           match json_Marshal_changes changes with
           | Some eventData =>
               Some {| Namespace := GetNamespace obj2;
                       ResourceKey := GetName obj2;
                       EventType := Modified;
                       Data := eventData;
                       ApiKey := apiKey cfg |}
           | None => None
           end
       | None => None
       end.
Proof.
  intros Hkey Hbase after.
  assert (cache_Get after (cache_key obj1 gvr) = Some obj1) as Hafter.
  { subst after. destruct Hbase as [-> | [-> [oldObj Hget]]].
    - rewrite HandleEvent_Added. apply lookup_insert_eq.
    - unfold HandleEvent, notification.
      cbn [event_Object event_Type as_Unstructured meta_Accessor].
      destruct (handle_switch_Modified_cached _ obj1 _ _ Hget) as [changes ->].
      destruct changes as [[??]|]; apply lookup_insert_eq. }
  split; [done|].
  apply HandleEvent_Modified_message. by rewrite Hkey.
Qed.

End handler_diff_outcomes.

(** ** Sequences of notifications *)

Section handler_streams.
Context `{Primitives}.

Implicit Types (cfg : Config) (env : Env) (objCache : ObjectCache).
Implicit Types (obj oldObj newObj : Unstructured) (gvr : GroupVersionResource).
Implicit Types (events : list (Env * Event * GroupVersionResource)).

Lemma handle_events_app cfg objCache events1 events2 :
  handle_events cfg objCache (events1 ++ events2)
  = ((handle_events cfg (handle_events cfg objCache events1).1 events2).1,
     (handle_events cfg objCache events1).2
     ++ (handle_events cfg (handle_events cfg objCache events1).1 events2).2).
Proof.
  revert objCache. induction events1 as [|[[env event] gvr] events1 IH];
    intros objCache.
  - cbn [app handle_events fst snd].
    by destruct (handle_events cfg objCache events2).
  - cbn [app handle_events]. rewrite IH.
    destruct (handle_events cfg _ events1) as [objCache1 calls1].
    cbn [fst snd].
    destruct (handle_events cfg objCache1 events2) as [objCache2 calls2].
    cbn [fst snd]. by rewrite app_assoc.
Qed.

(** One notification makes at most one RPC, and none unless it is of type
    [Modified]. *)
Lemma HandleEvent_count_rpcs cfg env objCache event gvr :
  count_rpcs (out_calls (HandleEvent cfg env objCache event gvr))
  <= if String.eqb (event_Type event) Modified then 1 else 0.
Proof.
  rewrite HandleEvent_calls.
  destruct (out_message _) as [msg|] eqn:Hmsg.
  - apply HandleEvent_message in Hmsg as [-> _].
    unfold send_message, NewEventServiceClient, SendEvent.
    destruct (externalSendEnabled cfg); [|cbn; lia].
    destruct (grpc_Dial _ _); cbn; lia.
  - destruct (_ =? _); cbn; lia.
Qed.

Lemma count_rpcs_app (calls1 calls2 : list (DispatcherCall bytes)) :
  count_rpcs (calls1 ++ calls2) = count_rpcs calls1 + count_rpcs calls2.
Proof. unfold count_rpcs. by rewrite List.filter_app, length_app. Qed.

(** X12: handling a sequence of notifications in two parts, the second
    from the cache the first leaves, gives the cache and the calls of handling
    it in one go; and a sequence makes at most as many RPCs as it holds
    [Modified] notifications. *)
Theorem X12_streams_compose_and_rpcs_are_bounded cfg objCache events1 events2 :
  handle_events cfg objCache (events1 ++ events2)
  = ((handle_events cfg (handle_events cfg objCache events1).1 events2).1,
     (handle_events cfg objCache events1).2
     ++ (handle_events cfg (handle_events cfg objCache events1).1 events2).2)
  /\ count_rpcs (handle_events cfg objCache events1).2
     <= count_type Modified events1.
Proof.
  split; [apply handle_events_app|].
  revert objCache. induction events1 as [|[[env event] gvr] events1 IH];
    intros objCache.
  - cbn. lia.
  - cbn [handle_events].
    specialize (IH (out_cache (HandleEvent cfg env objCache event gvr))).
    destruct (handle_events cfg _ events1) as [objCache1 calls1].
    cbn [snd] in *. rewrite count_rpcs_app.
    pose proof (HandleEvent_count_rpcs cfg env objCache event gvr) as Hone.
    unfold count_type in *. cbn [List.filter fst snd].
    destruct (event_Type event =? Modified); cbn [length]; lia.
Qed.

(** A key that is absent stays absent through a notification, unless the
    notification is an [Added] one for that key. *)
Lemma HandleEvent_absent cfg env objCache event gvr k :
  cache_Get objCache k = None ->
  (forall obj, event_Type event = Added ->
               event_Object event = Obj_Unstructured obj ->
               cache_key obj gvr <> k) ->
  cache_Get (out_cache (HandleEvent cfg env objCache event gvr)) k = None.
Proof.
  intros Hnone Hadded.
  destruct (event_Object event) as [obj| |] eqn:Hobj;
    [|by rewrite HandleEvent_not_object by (intros ?; congruence)..].
  destruct (decide (k = cache_key obj gvr)) as [->|Hne];
    [|by rewrite (HandleEvent_frame cfg env objCache event gvr obj k Hobj Hne)].
  unfold HandleEvent. rewrite Hobj. cbn [as_Unstructured meta_Accessor].
  unfold handle_switch.
  destruct (String.eqb_spec (event_Type event) Added) as [Hty|_].
  { by destruct (Hadded obj Hty eq_refl). }
  destruct (event_Type event =? Modified).
  { by rewrite Hnone. }
  destruct (event_Type event =? Deleted); [|done].
  cbn. apply lookup_delete_eq.
Qed.

Lemma handle_events_frame cfg objCache events k :
  (forall env event gvr obj,
      (env, event, gvr) ∈ events ->
      event_Object event = Obj_Unstructured obj ->
      cache_key obj gvr <> k) ->
  cache_Get (handle_events cfg objCache events).1 k = cache_Get objCache k.
Proof.
  revert objCache. induction events as [|[[env event] gvr] events IH];
    intros objCache Hkeys; [done|].
  cbn [handle_events].
  specialize (IH (out_cache (HandleEvent cfg env objCache event gvr))).
  destruct (handle_events cfg _ events) as [objCache1 calls1].
  cbn [fst] in *. rewrite IH.
  - destruct (event_Object event) as [obj| |] eqn:Hobj;
      [|by rewrite HandleEvent_not_object by (intros ?; congruence)..].
    apply HandleEvent_frame with (obj := obj); [done|].
    intros ->. by apply (Hkeys env event gvr obj); [left|..].
  - intros env' event' gvr' obj' Hin. apply (Hkeys env'). by right.
Qed.

(** X11: over any sequence of notifications, a cache key that is the key
    of no notified object keeps its snapshot or its absence. *)
Theorem X11_streams_touch_only_notified_keys cfg objCache events k :
  (forall env event gvr obj,
      (env, event, gvr) ∈ events ->
      event_Object event = Obj_Unstructured obj ->
      cache_key obj gvr <> k) ->
  cache_Get (handle_events cfg objCache events).1 k = cache_Get objCache k.
Proof. apply handle_events_frame. Qed.

(** X13: only [Added] notifications create cache entries: a key absent
    from the cache is still absent after any sequence of notifications that
    holds no [Added] notification for it, whatever [Modified] notifications
    it holds. *)
Theorem X13_only_Added_creates_an_entry cfg objCache events k :
  cache_Get objCache k = None ->
  (forall env event gvr obj,
      (env, event, gvr) ∈ events ->
      event_Type event = Added ->
      event_Object event = Obj_Unstructured obj ->
      cache_key obj gvr <> k) ->
  cache_Get (handle_events cfg objCache events).1 k = None.
Proof.
  revert objCache. induction events as [|[[env event] gvr] events IH];
    intros objCache Hnone Hadded; [done|].
  cbn [handle_events].
  specialize (IH (out_cache (HandleEvent cfg env objCache event gvr))).
  destruct (handle_events cfg _ events) as [objCache1 calls1].
  cbn [fst] in *. apply IH.
  - apply HandleEvent_absent; [done|].
    intros obj Hty Hobj. by apply (Hadded env event gvr obj); [left|..].
  - intros env' event' gvr' obj' Hin. apply (Hadded env'). by right.
Qed.

(** X14: [Added] and [Deleted] compose on the cache as writes and removals
    of one entry: a repeated [Added] notification leaves the cache as the
    first did; a [Deleted] notification after an [Added] one leaves the cache
    as a [Deleted] notification alone; a [Deleted] notification for an absent
    key leaves the cache as it was. *)
Theorem X14_Added_and_Deleted_compose cfg env env' objCache obj gvr :
  let added := out_cache (HandleEvent cfg env objCache (notification Added obj) gvr) in
  let deleted := out_cache (HandleEvent cfg env objCache (notification Deleted obj) gvr) in
  out_cache (HandleEvent cfg env' added (notification Added obj) gvr) = added
  /\ out_cache (HandleEvent cfg env' added (notification Deleted obj) gvr) = deleted
  /\ cache_Get deleted (cache_key obj gvr) = None
  /\ (cache_Get objCache (cache_key obj gvr) = None -> deleted = objCache).
Proof.
  cbn zeta. rewrite !HandleEvent_Added.
  change (HandleEvent cfg env objCache (notification Deleted obj) gvr)
    with (unchanged (cache_Delete objCache (cache_key obj gvr))).
  change (HandleEvent cfg env' ?c (notification Deleted obj) gvr)
    with (unchanged (cache_Delete c (cache_key obj gvr))).
  cbn [out_cache unchanged]. unfold cache_Set, cache_Delete, cache_Get.
  split; [apply insert_insert_eq|].
  split; [apply delete_insert_eq|].
  split; [apply lookup_delete_eq|].
  apply delete_id.
Qed.

(** X15: after a [Deleted] notification, a [Modified] notification for the
    same key assembles no message, makes no call and does not bring the entry
    back. *)
Theorem X15_Modified_after_Deleted_is_dropped
    cfg env env' objCache obj obj' gvr :
  cache_key obj' gvr = cache_key obj gvr ->
  let deleted := out_cache (HandleEvent cfg env objCache (notification Deleted obj) gvr) in
  HandleEvent cfg env' deleted (notification Modified obj') gvr = unchanged deleted
  /\ cache_Get deleted (cache_key obj' gvr) = None.
Proof.
  intros Hkey deleted.
  assert (cache_Get deleted (cache_key obj' gvr) = None) as Hnone.
  { subst deleted. rewrite Hkey. apply lookup_delete_eq. }
  split; [|done].
  unfold HandleEvent, notification.
  cbn [event_Object event_Type as_Unstructured meta_Accessor].
  unfold handle_switch.
  change (Modified =? Added) with false. change (Modified =? Modified) with true.
  cbn iota. by rewrite Hnone.
Qed.

End handler_streams.

(** ** Configuration, watch loops and startup *)

Section configuration.
Context `{Primitives}.

Implicit Types (cfg : Config) (env : Env) (objCache : ObjectCache).
Implicit Types (events : list (Env * Event * GroupVersionResource)).

Lemma Getenv_eqb (env : Env) (name value : string) :
  value <> "" ->
  String.eqb (Getenv env name) value = true <-> env !! name = Some value.
Proof.
  intros Hvalue. unfold Getenv. rewrite String.eqb_eq.
  destruct (env !! name) as [v|]; [|split; [congruence | done]].
  split; [by intros -> | by intros [= ->]].
Qed.

Lemma handle_events_disabled cfg objCache events :
  externalSendEnabled cfg = false ->
  (handle_events cfg objCache events).2 = [].
Proof.
  intros Hoff. revert objCache.
  induction events as [|[[env event] gvr] events IH]; intros objCache; [done|].
  cbn [handle_events].
  specialize (IH (out_cache (HandleEvent cfg env objCache event gvr))).
  destruct (handle_events cfg _ events) as [objCache1 calls1].
  cbn [snd] in *. by rewrite IH, HandleEvent_disabled.
Qed.

(** X17: sending is disabled exactly when [EXTERNAL_SEND_ENABLED] is set
    to the text [false] at startup; any other value, or none, leaves it
    enabled. Once disabled at startup, no sequence of notifications makes a
    call to the dispatcher, whatever the environment becomes. *)
Theorem X17_sending_disabled_only_by_false (startup : Env) objCache events :
  (externalSendEnabled (init_config startup) = false
   <-> startup !! "EXTERNAL_SEND_ENABLED" = Some "false")
  /\ (startup !! "EXTERNAL_SEND_ENABLED" = Some "false" ->
      (handle_events (init_config startup) objCache events).2 = []).
Proof.
  assert (externalSendEnabled (init_config startup) = false
          <-> startup !! "EXTERNAL_SEND_ENABLED" = Some "false") as Hiff.
  { unfold init_config. cbn [externalSendEnabled].
    rewrite negb_false_iff. by apply Getenv_eqb. }
  split; [done|]. intros Hoff. apply handle_events_disabled. by apply Hiff.
Qed.

(** X18: every call to the dispatcher uses TLS exactly when [USE_TLS] is
    set to the text [true] in the environment at the time of the call (any
    other value, or none, gives a connection without transport security), and
    goes to the value of [DESTINATION_URL], the empty address when unset. *)
Theorem X18_TLS_only_for_the_text_true cfg env objCache event gvr call :
  call ∈ out_calls (HandleEvent cfg env objCache event gvr) ->
  (call_useTLS call = true <-> env !! "USE_TLS" = Some "true")
  /\ call_target call = default "" (env !! "DESTINATION_URL").
Proof.
  intros Hcall. rewrite HandleEvent_calls in Hcall.
  destruct (out_message _) as [msg|]; [|by apply elem_of_nil in Hcall].
  apply send_message_calls in Hcall as (_ & -> & -> & _).
  split; [by apply Getenv_eqb|].
  unfold Getenv. by destruct (env !! "DESTINATION_URL").
Qed.

(** X19: a watch loop whose watch cannot be opened ends the process
    without handling anything. Otherwise it logs the resource it watches and
    only writes cache keys built from the resource name of its own kind:
    every other key keeps its snapshot or its absence. *)
Theorem X19_watch_loop_writes_keys_of_its_kind cfg objCache
    (watch : list (Env * Event) + string) (gvr : GroupVersionResource) :
  match watchResource cfg objCache watch gvr with
  | Fatal message =>
      exists err, watch = inr err
        /\ message = "Failed to watch " +:+ Resource gvr +:+ ": " +:+ err
  | Finished (objCache', calls, logged) =>
      exists stream, watch = inl stream
        /\ logged = ["Watching " +:+ Resource gvr]
        /\ (objCache', calls) = handle_events cfg objCache (of_kind gvr stream)
        /\ forall k, (forall obj, cache_key obj gvr <> k) ->
                     cache_Get objCache' k = cache_Get objCache k
  end.
Proof.
  unfold watchResource. destruct watch as [stream|err]; [|eauto].
  destruct (handle_events cfg objCache (of_kind gvr stream))
    as [objCache' calls] eqn:Hrun.
  exists stream. split; [done|]. split; [done|]. split; [done|].
  intros k Hk.
  change objCache' with (objCache', calls).1. rewrite <- Hrun.
  apply handle_events_frame.
  intros env event gvr' obj Hin _. unfold of_kind in Hin.
  apply list_elem_of_fmap in Hin as ([env' event'] & [= _ _ ->] & _).
  apply Hk.
Qed.

End configuration.

(** ** The kind filter and the start of the loops *)

Lemma allowed_of_group_wanted (g : APIResourceList) (gvr : GroupVersionResource) :
  gvr ∈ allowed_of_group g -> Resource gvr ∈ wantedResources.
Proof.
  intros Hin. apply elem_of_allowed_of_group in Hin as (r & gv & _ & _ & Hw & ->).
  exact Hw.
Qed.

Lemma allowed_of_group_length (g : APIResourceList) :
  length (allowed_of_group g) <= length (APIResources g).
Proof.
  unfold allowed_of_group.
  destruct (ParseGroupVersion _); [|cbn [length]; lia].
  rewrite length_map. apply List.filter_length_le.
Qed.

(** X20: the kind filter works group by group: the result for two lists
    of groups put together is the two results put together, resources and log
    lines alike. Every resource it returns is in the allow-list, and it
    returns at most as many resources as were discovered and at most one log
    line per group. *)
Theorem X20_kind_filter_is_group_wise (l1 l2 : list APIResourceList) :
  filterWatchableResources (l1 ++ l2)
  = ((filterWatchableResources l1).1 ++ (filterWatchableResources l2).1,
     (filterWatchableResources l1).2 ++ (filterWatchableResources l2).2)
  /\ (forall gvr, gvr ∈ (filterWatchableResources l1).1 ->
                  Resource gvr ∈ wantedResources)
  /\ length (filterWatchableResources l1).1
     <= length (concat (map APIResources l1))
  /\ length (filterWatchableResources l1).2 <= length l1.
Proof.
  rewrite !filterWatchableResources_eq. cbn [fst snd].
  split; [by rewrite map_app, concat_app, omap_app|].
  split; [|split].
  - intros gvr Hin. apply list_elem_of_In, in_concat in Hin as (gs & Hgs & Hin).
    apply in_map_iff in Hgs as (g & <- & _).
    apply list_elem_of_In in Hin. by apply allowed_of_group_wanted in Hin.
  - induction l1 as [|g l1 IH]; [done|].
    cbn [map concat]. rewrite !length_app.
    pose proof (allowed_of_group_length g). lia.
  - induction l1 as [|g l1 IH]; [done|].
    cbn [omap list_omap]. destruct (diagnostic_of_group g); cbn [length]; lia.
Qed.

(** X21: any discovery error ends the process before a loop is started,
    whatever was discovered. Without one, startup always goes through: groups
    that do not parse only add log lines, and every loop started watches a
    resource of the allow-list. *)
Theorem X21_startup_fails_only_on_discovery_error
    (discovered : list APIResourceList) (err : option string) :
  match StartWatching discovered err with
  | Fatal message =>
      exists e, err = Some e
        /\ message = "Failed to discover server-supported API resources: " +:+ e
  | Finished (kinds, logged) =>
      err = None
      /\ (kinds, logged) = filterWatchableResources discovered
      /\ (forall gvr, gvr ∈ kinds -> Resource gvr ∈ wantedResources)
      /\ length logged <= length discovered
  end.
Proof.
  unfold StartWatching. destruct err as [e|]; [eauto|].
  rewrite filterWatchableResources_eq. split; [done|]. split; [done|]. split.
  - intros gvr Hin. apply list_elem_of_In, in_concat in Hin as (gs & Hgs & Hin).
    apply in_map_iff in Hgs as (g & <- & _).
    apply list_elem_of_In in Hin. by apply allowed_of_group_wanted in Hin.
  - induction discovered as [|g l IH]; [done|].
    cbn [omap list_omap]. destruct (diagnostic_of_group g); cbn [length]; lia.
Qed.

(** ** filterPatch, further *)

(** X8: filtering a patch again changes nothing; the filter of two patches
    put together is the two filters put together; the result is never longer
    than the patch, and it is empty exactly when every operation has a path
    that starts with ["/metadata"] or ["/status"]. *)
Theorem X8_filterPatch_composes (patch1 patch2 : Patch) :
  filterPatch (filterPatch patch1) = filterPatch patch1
  /\ filterPatch (patch1 ++ patch2) = filterPatch patch1 ++ filterPatch patch2
  /\ length (filterPatch patch1) <= length patch1
  /\ (filterPatch patch1 = []
      <-> forall op, op ∈ patch1 ->
            HasPrefix (op_Path op) "/metadata" = true
            \/ HasPrefix (op_Path op) "/status" = true).
Proof.
  rewrite !filterPatch_filter. split; [|split; [|split]].
  - induction patch1 as [|op patch1 IH]; [done|]. cbn [List.filter].
    destruct (kept op) eqn:Hkept; [|done].
    cbn [List.filter]. by rewrite Hkept, IH.
  - apply List.filter_app.
  - apply List.filter_length_le.
  - rewrite <- filterPatch_filter, filterPatch_nil.
    split; intros Hall op Hin; specialize (Hall op Hin); unfold kept in *.
    + apply andb_false_iff in Hall as [Hm%negb_false_iff|Hs%negb_false_iff]; auto.
    + destruct Hall as [-> | ->]; [done | apply andb_false_r].
Qed.

(** ** Cache keys and gjson paths *)

Lemma String_app (c : ascii) (s t : string) : String c s +:+ t = String c (s +:+ t).
Proof. reflexivity. Qed.

Lemma string_app_assoc (s t u : string) : (s +:+ t) +:+ u = s +:+ (t +:+ u).
Proof.
  induction s as [|c s IH]; [done|]. by rewrite !String_app, IH.
Qed.

Lemma Count_app (s t : string) (sep : ascii) :
  Count (s +:+ t) sep = Count s sep + Count t sep.
Proof.
  induction s as [|c s IH]; [done|].
  rewrite String_app. cbn [Count]. rewrite IH. lia.
Qed.

Lemma cut_at_app (a b : string) (sep : ascii) :
  Count a sep = 0 -> cut_at (a +:+ String sep b) sep = Some (a, b).
Proof.
  induction a as [|c a IH]; intros Hcount.
  - change ("" +:+ String sep b) with (String sep b). cbn [cut_at].
    by rewrite Ascii.eqb_refl.
  - rewrite String_app. cbn [cut_at Count] in *.
    destruct (Ascii.eqb c sep); [done|]. by rewrite IH.
Qed.

Lemma cut_at_none (s : string) (sep : ascii) :
  Count s sep = 0 -> cut_at s sep = None.
Proof.
  induction s as [|c s IH]; intros Hcount; [done|].
  cbn [cut_at Count] in *. destruct (Ascii.eqb c sep); [done|]. by rewrite IH.
Qed.

(** A cache key reads back into the namespace, the resource and the name
    it was built from, when none of them holds a slash. *)
Lemma key_parts_cache_key (obj : Unstructured) (gvr : GroupVersionResource) :
  Count (GetNamespace obj) "/" = 0 ->
  Count (Resource gvr) "/" = 0 ->
  Count (GetName obj) "/" = 0 ->
  key_parts (cache_key obj gvr) = (GetNamespace obj, Resource gvr, GetName obj).
Proof.
  intros Hns Hres Hname. unfold cache_key, key_parts.
  destruct (String.eqb_spec (GetNamespace obj) "") as [Hempty|_]; cbn [negb].
  - change (Resource gvr +:+ "/" +:+ GetName obj)
      with (Resource gvr +:+ String "/" (GetName obj)).
    rewrite cut_at_app by done. rewrite cut_at_none by done. by rewrite Hempty.
  - rewrite string_app_assoc.
    change (GetNamespace obj +:+ ("/" +:+ Resource gvr) +:+ "/" +:+ GetName obj)
      with (GetNamespace obj
            +:+ String "/" (Resource gvr +:+ String "/" (GetName obj))).
    rewrite cut_at_app by done. by rewrite cut_at_app by done.
Qed.

(** X10: the cache key tells objects apart: when namespaces, resource names
    and object names hold no slash, two objects of two kinds have the same key
    only if they have the same namespace, resource name and object name. The
    group and the version of the kind are not part of the key. *)
Theorem X10_cache_key_is_injective
    (obj1 obj2 : Unstructured) (gvr1 gvr2 : GroupVersionResource) :
  Count (GetNamespace obj1) "/" = 0 -> Count (GetNamespace obj2) "/" = 0 ->
  Count (Resource gvr1) "/" = 0 -> Count (Resource gvr2) "/" = 0 ->
  Count (GetName obj1) "/" = 0 -> Count (GetName obj2) "/" = 0 ->
  (cache_key obj1 gvr1 = cache_key obj2 gvr2
   <-> GetNamespace obj1 = GetNamespace obj2
       /\ Resource gvr1 = Resource gvr2
       /\ GetName obj1 = GetName obj2).
Proof.
  intros Hns1 Hns2 Hres1 Hres2 Hname1 Hname2. split.
  - intros Hkey.
    pose proof (key_parts_cache_key obj1 gvr1 Hns1 Hres1 Hname1) as H1.
    pose proof (key_parts_cache_key obj2 gvr2 Hns2 Hres2 Hname2) as H2.
    rewrite Hkey, H2 in H1. by injection H1 as -> -> ->.
  - intros (Hns & Hres & Hname). unfold cache_key. by rewrite Hns, Hres, Hname.
Qed.

Lemma replace_from_no_slash (s t : string) :
  Count s "/" = 0 ->
  replace_from 0 (s +:+ t) "/" "." = s +:+ replace_from 0 t "/" ".".
Proof.
  induction s as [|c s IH]; intros Hcount; [done|].
  rewrite !String_app. cbn [Count] in Hcount.
  cbn [replace_from HasPrefix].
  destruct (Ascii.eqb c "/"); [done|]. cbn [andb]. by rewrite IH.
Qed.

Lemma replace_from_pointer (segments : list string) :
  Forall (fun seg => Count seg "/" = 0) segments ->
  replace_from 0 (pointer segments) "/" "."
  = match segments with
    | [] => ""
    | _ => "." +:+ dotted segments
    end.
Proof.
  induction 1 as [|seg rest Hseg Hrest IH]; [done|].
  cbn [pointer]. change ("/" +:+ seg +:+ pointer rest)
    with (String "/" (seg +:+ pointer rest)).
  change (replace_from 0 (String "/" (seg +:+ pointer rest)) "/" ".")
    with ("." +:+ replace_from 0 (seg +:+ pointer rest) "/" ".").
  rewrite replace_from_no_slash by done. rewrite IH.
  destruct rest as [|seg' rest]; [by rewrite append_empty_r|done].
Qed.

Lemma Split_no_separator (s : string) (sep : ascii) :
  Count s sep = 0 -> Split s sep = [s].
Proof.
  induction s as [|c s IH]; intros Hcount; [done|].
  cbn [Split Count] in *. destruct (Ascii.eqb c sep); [done|]. by rewrite IH.
Qed.

Lemma Split_app (s t : string) (sep : ascii) :
  Count s sep = 0 -> Split (s +:+ String sep t) sep = s :: Split t sep.
Proof.
  induction s as [|c s IH]; intros Hcount.
  - change ("" +:+ String sep t) with (String sep t). cbn [Split].
    by rewrite Ascii.eqb_refl.
  - rewrite String_app. cbn [Split Count] in *.
    destruct (Ascii.eqb c sep); [done|]. by rewrite IH.
Qed.

Lemma Split_length (s : string) (sep : ascii) :
  length (Split s sep) = S (Count s sep).
Proof.
  induction s as [|c s IH]; [done|].
  cbn [Split Count]. destruct (Ascii.eqb c sep); cbn [length].
  - by rewrite IH.
  - destruct (Split s sep); cbn [length] in *; lia.
Qed.

Lemma Count_dotted (segments : list string) :
  segments <> [] ->
  S (Count (dotted segments) ".")
  = length segments + sum_list_with (fun seg => Count seg ".") segments.
Proof.
  induction segments as [|seg rest IH]; [done|]. intros _.
  destruct rest as [|seg' rest].
  - cbn [dotted length sum_list_with]. lia.
  - change (dotted (seg :: seg' :: rest))
      with (seg +:+ String "." (dotted (seg' :: rest))).
    rewrite Count_app. cbn [Count]. change (Ascii.eqb "." ".") with true.
    cbn [length sum_list_with] in *. specialize (IH ltac:(done)). lia.
Qed.

Lemma Split_dotted (segments : list string) :
  segments <> [] ->
  Forall (fun seg => Count seg "." = 0) segments ->
  Split (dotted segments) "." = segments.
Proof.
  induction segments as [|seg rest IH]; [done|]. intros _ Hdots.
  pose proof (Forall_inv Hdots) as Hseg.
  pose proof (Forall_inv_tail Hdots) as Hrest.
  destruct rest as [|seg' rest].
  - by apply Split_no_separator.
  - change (dotted (seg :: seg' :: rest))
      with (seg +:+ String "." (dotted (seg' :: rest))).
    rewrite Split_app by done. f_equal. by apply IH.
Qed.

(** X9: the gjson path of the pointer [/s1/.../sn], whose segments hold
    no slash, is [s1.....sn]. Cut at its dots it gives back the segments when
    no segment holds a dot; in general it gives one piece per segment and one
    more for every dot inside a segment. *)
Theorem X9_gjsonPath_of_a_pointer (segments : list string) :
  Forall (fun seg => Count seg "/" = 0) segments ->
  gjsonPath (pointer segments) = dotted segments
  /\ (segments <> [] ->
      Forall (fun seg => Count seg "." = 0) segments ->
      Split (gjsonPath (pointer segments)) "." = segments)
  /\ (segments <> [] ->
      length (Split (gjsonPath (pointer segments)) ".")
      = length segments + sum_list_with (fun seg => Count seg ".") segments).
Proof.
  intros Hslash.
  assert (gjsonPath (pointer segments) = dotted segments) as ->.
  { unfold gjsonPath, ReplaceAll. destruct segments as [|seg rest]; [reflexivity|].
    pose proof (Forall_inv Hslash) as Hseg.
    pose proof (Forall_inv_tail Hslash) as Hrest.
    cbn [pointer]. change (TrimPrefix ("/" +:+ seg +:+ pointer rest) "/")
      with (seg +:+ pointer rest).
    rewrite replace_from_no_slash by done.
    rewrite replace_from_pointer by done.
    destruct rest as [|seg' rest]; [by rewrite append_empty_r|done]. }
  split; [done|]. split.
  - apply Split_dotted.
  - intros Hne. rewrite Split_length. by apply Count_dotted.
Qed.

(** ** The further theorems at concrete inputs *)

(** X5 at a concrete input: the cached deployment and the incoming one
    differ in [metadata.resourceVersion] only. *)
Lemma X5_witness :
  let X := deployment "1" [("replicas", JNum 1)] in
  let X' := deployment "2" [("replicas", JNum 1)] in
  let cached : ObjectCache := {[ "default/deployments/web" := X ]} in
  @HandleEvent reference_primitives (init_config ∅) ∅ cached
               (notification Modified X') deployments
  = @unchanged reference_primitives
      (cache_Set cached (cache_key X' deployments) (DeepCopyObject X')).
Proof.
  apply (@X5_bookkeeping_only_changes_are_silent reference_primitives)
    with (oldObj := deployment "1" [("replicas", JNum 1)])
         (patch := [op_replace "/metadata/resourceVersion" (JStr "1") (JStr "2")]).
  - reflexivity.
  - vm_compute. reflexivity.
  - intros op Hin. apply list_elem_of_singleton in Hin as ->. by left.
Defined.

(** X6 at a concrete input: the differ fails on a cached deployment. *)
Lemma X6_witness :
  let X := deployment "1" [("replicas", JNum 1)] in
  let X' := deployment "1" [("replicas", JNum 3)] in
  let cached : ObjectCache := {[ "default/deployments/web" := X ]} in
  @HandleEvent failing_differ (init_config ∅) ∅ cached
               (notification Modified X') deployments
  = @unchanged failing_differ
      (cache_Set cached (cache_key X' deployments) (DeepCopyObject X')).
Proof.
  apply (@X6_primitive_errors_drop_the_event_only failing_differ)
    with (oldObj := deployment "1" [("replicas", JNum 1)]).
  - reflexivity.
  - right. right. reflexivity.
Defined.

(** X7 at a concrete input: the two deployments of the replicas scenario,
    the second with another [metadata.resourceVersion]. *)
Lemma X7_witness :
  let X := deployment "1" [("replicas", JNum 1)] in
  let X' := deployment "2" [("replicas", JNum 3)] in
  let changes : ChangeSet :=
    {[ "/spec/replicas" := {| old := JNum 1; new := JNum 3 |} ]} in
  exists patch,
    @jsondiff_Compare reference_primitives X X' = Some patch
    /\ filterPatch patch <> []
    /\ size changes <= length (filterPatch patch)
    /\ forall path, is_Some (changes !! path) ->
         HasPrefix path "/metadata" = false
         /\ HasPrefix path "/status" = false
         /\ exists op, op ∈ patch /\ op_Path op = path.
Proof.
  apply (@X7_change_set_within_filtered_patch reference_primitives)
    with (key := "default/deployments/web").
  vm_compute. reflexivity.
Defined.

(** X9 at a concrete input: the pointer of a container image. *)
Lemma X9_witness :
  let segments := ["spec"; "containers"; "0"; "image"] in
  gjsonPath (pointer segments) = dotted segments
  /\ (segments <> [] ->
      Forall (fun seg => Count seg "." = 0) segments ->
      Split (gjsonPath (pointer segments)) "." = segments)
  /\ (segments <> [] ->
      length (Split (gjsonPath (pointer segments)) ".")
      = length segments + sum_list_with (fun seg => Count seg ".") segments).
Proof.
  apply (X9_gjsonPath_of_a_pointer ["spec"; "containers"; "0"; "image"]).
  repeat constructor.
Defined.

(** X10 at a concrete input: a deployment and a pod of the same namespace. *)
Lemma X10_witness :
  let X := deployment "1" [] in
  let P := test_pod "a" "b" in
  let pods := {| Group := ""; Version := "v1"; Resource := "pods" |} in
  cache_key X deployments = cache_key P pods
  <-> GetNamespace X = GetNamespace P
      /\ Resource deployments = Resource pods
      /\ GetName X = GetName P.
Proof.
  apply (X10_cache_key_is_injective (deployment "1" []) (test_pod "a" "b"));
    reflexivity.
Defined.

(** X11 at a concrete input: an [Added] deployment, and the key of a pod. *)
Lemma X11_witness :
  let X := deployment "1" [] in
  cache_Get
    (@handle_events reference_primitives (init_config ∅) ∅
                    [(∅, notification Added X, deployments)]).1
    "default/pods/test-pod"
  = cache_Get (∅ : ObjectCache) "default/pods/test-pod".
Proof.
  apply (@X11_streams_touch_only_notified_keys reference_primitives).
  intros env event gvr obj Hin Hobj.
  apply list_elem_of_singleton in Hin. injection Hin as -> -> ->.
  injection Hobj as <-. discriminate.
Defined.

(** X13 at a concrete input: a [Modified] deployment on an empty cache. *)
Lemma X13_witness :
  let X := deployment "1" [] in
  cache_Get
    (@handle_events reference_primitives (init_config ∅) ∅
                    [(∅, notification Modified X, deployments)]).1
    "default/deployments/web"
  = None.
Proof.
  apply (@X13_only_Added_creates_an_entry reference_primitives).
  - reflexivity.
  - intros env event gvr obj Hin Hty.
    apply list_elem_of_singleton in Hin. injection Hin as -> -> ->.
    discriminate Hty.
Defined.

(** X15 at a concrete input: a deployment deleted, then modified. *)
Lemma X15_witness :
  let X := deployment "1" [("replicas", JNum 1)] in
  let X' := deployment "2" [("replicas", JNum 3)] in
  let cached : ObjectCache := {[ "default/deployments/web" := X ]} in
  let deleted :=
    out_cache (@HandleEvent reference_primitives (init_config ∅) ∅ cached
                            (notification Deleted X) deployments) in
  @HandleEvent reference_primitives (init_config ∅) ∅ deleted
               (notification Modified X') deployments
  = @unchanged reference_primitives deleted
  /\ cache_Get deleted (cache_key X' deployments) = None.
Proof.
  apply (@X15_Modified_after_Deleted_is_dropped reference_primitives).
  reflexivity.
Defined.

(** X16 at a concrete input: a deployment added, then modified. *)
Lemma X16_witness :
  let X := deployment "1" [("replicas", JNum 1)] in
  let X' := deployment "2" [("replicas", JNum 3)] in
  let cfg := init_config ∅ in
  let after :=
    out_cache (@HandleEvent reference_primitives cfg ∅ ∅
                            (notification Added X) deployments) in
  cache_Get after (cache_key X deployments) = Some X
  /\ out_message (@HandleEvent reference_primitives cfg ∅ after
                               (notification Modified X') deployments)
     = match @diffAndLog reference_primitives X X' (cache_key X' deployments) with
       | Some changes =>
           match @json_Marshal_changes reference_primitives changes with
           | Some eventData =>
               Some {| Namespace := GetNamespace X';
                       ResourceKey := GetName X';
                       EventType := Modified;
                       Data := eventData;
                       ApiKey := apiKey cfg |}
           | None => None
           end
       | None => None
       end.
Proof.
  apply (@X16_diff_is_against_the_last_notification reference_primitives)
    with (baseline := Added).
  - reflexivity.
  - by left.
Defined.

(** X18 at a concrete input: the dial of the replicas scenario, with
    [USE_TLS] set to [true]. *)
Lemma X18_witness :
  let env : Env := <["USE_TLS" := "true"]> (<["DESTINATION_URL" := "hub.example:443"]> ∅) in
  let call : DispatcherCall (@bytes reference_primitives) :=
    Dial "hub.example:443" true in
  (call_useTLS call = true <-> env !! "USE_TLS" = Some "true")
  /\ call_target call = default "" (env !! "DESTINATION_URL").
Proof.
  apply (@X18_TLS_only_for_the_text_true reference_primitives (init_config ∅)
           (<["USE_TLS" := "true"]> (<["DESTINATION_URL" := "hub.example:443"]> ∅))
           {[ "default/deployments/web" := deployment "1" [("replicas", JNum 1)] ]}
           (notification Modified (deployment "1" [("replicas", JNum 3)]))
           deployments).
  vm_compute. left.
Defined.

(** ** The object cache *)

(** The repository's [TestObjectCache_SetGetDelete]: an object set under a
    key is the one retrieved, and is gone after the key is deleted. *)
Example TestObjectCache_SetGetDelete :
  let obj := {| Object := [("metadata", JObj [("name", JStr "test-object")])] |} in
  let c := cache_Set NewObjectCache "test-key" obj in
  cache_Get c "test-key" = Some obj
  /\ cache_Get (cache_Delete c "test-key") "test-key" = None.
Proof. split; reflexivity. Qed.

(** X22: the cache holds at most one object per key, the last one set: a
    new cache finds nothing; [Get] after [Set] of a key finds the object set,
    also when the key held another object; [Get] after [Delete] of a key
    finds nothing; [Set] and [Delete] of a key leave what [Get] finds at
    every other key. *)
Theorem X22_cache_finds_the_last_object_set
    (c : ObjectCache) (key key' : string) (obj obj' : Unstructured) :
  cache_Get NewObjectCache key = None
  /\ cache_Get (cache_Set c key obj) key = Some obj
  /\ cache_Set (cache_Set c key obj') key obj = cache_Set c key obj
  /\ cache_Get (cache_Delete c key) key = None
  /\ (key' <> key ->
      cache_Get (cache_Set c key obj) key' = cache_Get c key'
      /\ cache_Get (cache_Delete c key) key' = cache_Get c key').
Proof.
  unfold cache_Get, cache_Set, cache_Delete, NewObjectCache.
  split; [apply lookup_empty|].
  split; [apply lookup_insert_eq|].
  split; [apply insert_insert_eq|].
  split; [apply lookup_delete_eq|].
  intros Hne. split; [by apply lookup_insert_ne | by apply lookup_delete_ne].
Qed.
